(** * kaeru-tools: the language catalog, the locale resolver, the prompt
    loader and the KaruAssistant facade, embedded in Rocq.

    JavaScript strings are sequences of UTF-16 code units; the built-in
    string and regular-expression operations the sources call
    (trim, toLowerCase, String.prototype.replace and its replacement
    patterns, RegExp matching with backtracking) are written out
    here as the ECMAScript standard defines them, restricted to the
    features the sources use. *)

From Stdlib Require Import NArith QArith List String Ascii Bool Lia.
From stdpp Require Import gmap.

Local Open Scope N_scope.

(** ** Strings *)

Abbreviation jsstring := (list N).

(** A string literal of the sources (ASCII only) as code units. *)
Fixpoint js (s : string) : jsstring :=
  match s with
  | EmptyString => []
  | String c s' => N_of_ascii c :: js s'
  end.

Definition is_empty (s : jsstring) : bool :=
  match s with [] => true | _ :: _ => false end.

(** LineTerminator: LF, CR, LS, PS. *)
Definition isLineTerminator (c : N) : bool :=
  (c =? 10) || (c =? 13) || (c =? 0x2028) || (c =? 0x2029).

(** WhiteSpace: TAB, VT, FF, SP, NBSP, ZWNBSP and the space separators. *)
Definition isWhiteSpace (c : N) : bool :=
  (c =? 9) || (c =? 11) || (c =? 12) || (c =? 32) || (c =? 0xA0) ||
  (c =? 0x1680) || ((0x2000 <=? c) && (c <=? 0x200A)) ||
  (c =? 0x202F) || (c =? 0x205F) || (c =? 0x3000) || (c =? 0xFEFF).

(** What [trim] strips and what the class [\s] matches. *)
Definition isSpace (c : N) : bool := isWhiteSpace c || isLineTerminator c.

Definition isDigit (c : N) : bool := (48 <=? c) && (c <=? 57).
Definition isUpper (c : N) : bool := (65 <=? c) && (c <=? 90).
Definition isLower (c : N) : bool := (97 <=? c) && (c <=? 122).
Definition isAlpha (c : N) : bool := isUpper c || isLower c.
Definition isAlnum (c : N) : bool := isAlpha c || isDigit c.

Fixpoint trimStart (s : jsstring) : jsstring :=
  match s with
  | c :: s' => if isSpace c then trimStart s' else s
  | [] => []
  end.

Definition trimEnd (s : jsstring) : jsstring := rev (trimStart (rev s)).

(** String.prototype.trim *)
Definition trim (s : jsstring) : jsstring := trimEnd (trimStart s).

(** String.prototype.toLowerCase on one code unit. Only the ASCII range is
    mapped: [resolveLanguageFromLocale] is the one caller, and it uses the
    result only once [Intl.Locale] has accepted its argument, which
    confines the argument to ASCII letters, digits and hyphens
    (lemma [Intl_Locale_ascii] below). *)
Definition lower_unit (c : N) : N := if isUpper c then c + 32 else c.
Definition upper_unit (c : N) : N := if isLower c then c - 32 else c.

Definition toLowerCase (s : jsstring) : jsstring := map lower_unit s.

Fixpoint starts_with (pat s : jsstring) : bool :=
  match pat, s with
  | [], _ => true
  | p :: pat', c :: s' => (p =? c) && starts_with pat' s'
  | _ :: _, [] => false
  end.

(** StringIndexOf from position 0: the first index at which [pat] occurs. *)
Fixpoint indexOf (pat s : jsstring) : option nat :=
  if starts_with pat s then Some 0%nat
  else match s with
       | [] => None
       | _ :: s' => option_map S (indexOf pat s')
       end.

(** GetSubstitution for a match without capture groups, which is the case
    of every replace call of the sources (string patterns, and regular
    expressions that have no group).  [$$] is a dollar sign, [$&] the
    matched text, [$`] what precedes the match and [$'] what follows it;
    any other [$] stays as written ([$1] ... [$99] and [$<] included, as
    there is no capture to refer to). *)
Fixpoint GetSubstitution (before matched after repl : jsstring) : jsstring :=
  match repl with
  | [] => []
  | c :: t =>
      if c =? 36 then
        match t with
        | d :: t' =>
            if d =? 36 then 36 :: GetSubstitution before matched after t'
            else if d =? 38 then matched ++ GetSubstitution before matched after t'
            else if d =? 96 then before ++ GetSubstitution before matched after t'
            else if d =? 39 then after ++ GetSubstitution before matched after t'
            else 36 :: GetSubstitution before matched after t
        | [] => [36]
        end
      else c :: GetSubstitution before matched after t
  end.

(** String.prototype.replace(searchValue, replaceValue) with two strings:
    only the first occurrence is replaced. *)
Definition String_replace (searchValue replaceValue s : jsstring) : jsstring :=
  match indexOf searchValue s with
  | None => s
  | Some pos =>
      let preceding := take pos s in
      let following := drop (pos + length searchValue) s in
      preceding ++ GetSubstitution preceding searchValue following replaceValue
                ++ following
  end.

(** ** Regular expressions

    The backtracking matcher of the standard, in continuation-passing
    style, for the constructs the sources use: character sets, sequence,
    quantifiers (greedy and lazy, bounded and unbounded) and a capturing
    group.  None of the patterns has an anchor, a look-around or a
    back-reference, so a match attempt at an index only reads the string
    from that index on and is run on that suffix; none has a group under
    a quantifier, so captures are never reset. *)

Inductive regex : Type :=
| Empty
| CharSet (p : N -> bool)
| Seq (r1 r2 : regex)
| Quant (min : nat) (max : option nat) (greedy : bool) (r : regex)
| Group (r : regex).

(** Canonicalize of a pattern without the [u] flag: upper-casing, except
    that a code unit outside ASCII never becomes an ASCII one.  The
    patterns of the sources are ASCII only, so for a code unit outside
    ASCII all that matters is that it stays outside. *)
Definition Canonicalize (ignoreCase : bool) (c : N) : N :=
  if ignoreCase then upper_unit c else c.

Definition Char (ignoreCase : bool) (c : N) : regex :=
  CharSet (fun ch => Canonicalize ignoreCase ch =? Canonicalize ignoreCase c).

(** A run of literal pattern characters. *)
Fixpoint Lit (ignoreCase : bool) (s : jsstring) : regex :=
  match s with
  | [] => Empty
  | c :: s' => Seq (Char ignoreCase c) (Lit ignoreCase s')
  end.

(** [.] (no [s] flag), [\s] and [\d]. *)
Definition Dot : regex := CharSet (fun c => negb (isLineTerminator c)).
Definition ClassSpace : regex := CharSet isSpace.
Definition ClassDigit : regex := CharSet isDigit.

Section Matcher.
Context {R : Type}.

(** A continuation receives the rest of the input and capture 1. *)
Definition Continuation : Type := jsstring -> option jsstring -> option R.

(** RepeatMatcher: [min] mandatory iterations, then optional ones up to
    [max]; an optional iteration that consumes nothing is rejected.
    Every iteration lowers [min] or shortens the input, so
    [S (min + length s)] units of [fuel] are never used up: for the
    quantifiers of the patterns the lemmas [RepeatMatcher_greedy_star],
    [RepeatMatcher_lazy_star], [RepeatMatcher_plus], [RepeatMatcher_exactly]
    and [RepeatMatcher_optional] give the result without fuel. *)
Fixpoint RepeatMatcher (m1 : jsstring -> option jsstring -> Continuation -> option R)
    (fuel min : nat) (max : option nat) (greedy : bool)
    (s : jsstring) (cap : option jsstring) (k : Continuation) : option R :=
  match fuel with
  | O => None
  | S fuel' =>
      match max with
      | Some O => k s cap
      | _ =>
          let again :=
            m1 s cap (fun s' cap' =>
              if Nat.eqb min 0 && Nat.eqb (length s') (length s) then None
              else RepeatMatcher m1 fuel' (Nat.pred min) (Nat.pred <$> max) greedy s' cap' k) in
          if Nat.ltb 0 min then again
          else if greedy then
            match again with Some x => Some x | None => k s cap end
          else
            match k s cap with Some x => Some x | None => again end
      end
  end.

Fixpoint matcher (r : regex) (s : jsstring) (cap : option jsstring)
    (k : Continuation) {struct r} : option R :=
  match r with
  | Empty => k s cap
  | CharSet p =>
      match s with
      | c :: s' => if p c then k s' cap else None
      | [] => None
      end
  | Seq r1 r2 => matcher r1 s cap (fun s' cap' => matcher r2 s' cap' k)
  | Quant min max greedy r1 =>
      RepeatMatcher (matcher r1) (S (min + length s)) min max greedy s cap k
  | Group r1 =>
      matcher r1 s cap
        (fun s' _ => k s' (Some (take (length s - length s') s)))
  end.
End Matcher.

(** One match attempt at the head of [s]: the length of the match and
    capture 1. *)
Definition match_here (r : regex) (s : jsstring) : option (nat * option jsstring) :=
  matcher r s None (fun s' cap => Some ((length s - length s')%nat, cap)).

Record MatchResult : Type := {
  index : nat;
  matched : jsstring;
  capture1 : option jsstring
}.

(** RegExpBuiltinExec of a pattern without [g] or [y]: the first index,
    from [i] on, at which a match attempt succeeds. *)
Fixpoint exec_from (r : regex) (i : nat) (s : jsstring) : option MatchResult :=
  match match_here r s with
  | Some (len, cap) => Some {| index := i; matched := take len s; capture1 := cap |}
  | None =>
      match s with
      | [] => None
      | _ :: s' => exec_from r (S i) s'
      end
  end.

(** String.prototype.match with such a pattern. *)
Definition String_match (r : regex) (s : jsstring) : option MatchResult :=
  exec_from r 0 s.

(** Replacement of every match, left to right (a pattern with the [g]
    flag).  [inside] counts the code units of the current match that are
    still to be passed; an attempt is made at every index outside a match,
    and after an empty match the search moves on by one code unit. *)
Section ReplaceAll.
Variable attempt : jsstring -> option nat.
Variable replaceValue : jsstring.

Fixpoint replace_scan (before s : jsstring) (inside : nat) : jsstring :=
  match inside with
  | S n =>
      match s with
      | c :: s' => replace_scan (before ++ [c]) s' n
      | [] => []
      end
  | O =>
      match attempt s with
      | Some len =>
          GetSubstitution before (take len s) (drop len s) replaceValue ++
          match s with
          | [] => []
          | c :: s' =>
              match len with
              | O => c :: replace_scan (before ++ [c]) s' 0
              | S n => replace_scan (before ++ [c]) s' n
              end
          end
      | None =>
          match s with
          | [] => []
          | c :: s' => c :: replace_scan (before ++ [c]) s' 0
          end
      end
  end.
End ReplaceAll.

Definition RegExp_replace_all (r : regex) (replaceValue s : jsstring) : jsstring :=
  replace_scan (fun t => fst <$> match_here r t) replaceValue [] s 0.

(** The patterns of [translate]. *)

(** /<a?:.+?:\d{18}>/g *)
Definition re_emoji : regex :=
  Seq (Char false 60)
   (Seq (Quant 0 (Some 1%nat) true (Char false 97))
    (Seq (Char false 58)
     (Seq (Quant 1 None false Dot)
      (Seq (Char false 58)
       (Seq (Quant 18 (Some 18%nat) true ClassDigit)
            (Char false 62)))))).

(** /\{targetLanguage\}/g and /\{fromLanguage\}/g *)
Definition re_targetLanguage : regex := Lit false (js "{targetLanguage}").
Definition re_fromLanguage : regex := Lit false (js "{fromLanguage}").

(** /Cleaned:\s*(.+)/i and /Translated:\s*(.+)/i *)
Definition re_labelled (label : jsstring) : regex :=
  Seq (Lit true label)
   (Seq (Quant 0 None true ClassSpace)
        (Group (Quant 1 None true Dot))).

Definition re_cleaned : regex := re_labelled (js "Cleaned:").
Definition re_translated : regex := re_labelled (js "Translated:").

Definition LF : jsstring := [10].

(** ** Completions and objects *)

Inductive exception : Type :=
| Error (message : jsstring)      (* [new Error(message)] thrown by the sources *)
| RangeError                      (* thrown by [new Intl.Locale] *)
| TypeError                       (* a method called on [undefined] *)
| GoogleGenerativeAIError         (* thrown by the SDK's [getGenerativeModel] *)
| FileError                       (* [fs.readFileSync] or [JSON.parse] failed *)
| RemoteError (reason : jsstring) (* [generateContent] rejected *).

Inductive completion (A : Type) : Type :=
| Return (a : A)
| Throw (e : exception).
Arguments Return {A} a.
Arguments Throw {A} e.

(** The own properties of [Object.prototype]: every object literal and
    every object built by [JSON.parse] inherits them, and [obj[key]]
    finds them when the object has no own property of that name. *)
Definition Object_prototype_names : list jsstring :=
  map js ["constructor"; "__defineGetter__"; "__defineSetter__";
          "hasOwnProperty"; "__lookupGetter__"; "__lookupSetter__";
          "isPrototypeOf"; "propertyIsEnumerable"; "toString"; "valueOf";
          "__proto__"; "toLocaleString"]%string.

(** The value of [obj[key]] for a plain object with own properties of
    type [V]. *)
Inductive property (V : Type) : Type :=
| Own (v : V)
| Inherited (name : jsstring)
| Undefined.
Arguments Own {V} v.
Arguments Inherited {V} name.
Arguments Undefined {V}.

Definition Get {V : Type} (obj : gmap jsstring V) (key : jsstring) : property V :=
  match obj !! key with
  | Some v => Own v
  | None =>
      if bool_decide (key ∈ Object_prototype_names) then Inherited key
      else Undefined
  end.

(** ** enums/languages *)

Inductive SummaryLength : Type := SHORT | MEDIUM | LONG.

Inductive SummaryStyle : Type :=
  PROFESSIONAL | CASUAL | ACADEMIC | TECHNICAL | SIMPLE.

Inductive Languages : Type :=
  EN | ES | FR | DE | IT | PT | RU | ZH | JA | KO | AR | HI | TR.

(** The string each enum member stands for at run time. *)
Definition SummaryStyle_value (s : SummaryStyle) : jsstring :=
  match s with
  | PROFESSIONAL => js "professional"
  | CASUAL => js "casual"
  | ACADEMIC => js "academic"
  | TECHNICAL => js "technical"
  | SIMPLE => js "simple"
  end.

Definition Languages_value (l : Languages) : jsstring :=
  match l with
  | EN => js "en" | ES => js "es" | FR => js "fr" | DE => js "de"
  | IT => js "it" | PT => js "pt" | RU => js "ru" | ZH => js "zh"
  | JA => js "ja" | KO => js "ko" | AR => js "ar" | HI => js "hi"
  | TR => js "tr"
  end.

Definition LOCALE_TO_LANGUAGE : gmap jsstring Languages :=
  list_to_map
    [ (js "en-us", EN); (js "en-gb", EN); (js "en", EN);
      (js "es-es", ES); (js "es-mx", ES); (js "es", ES);
      (js "fr-fr", FR); (js "fr", FR);
      (js "de-de", DE); (js "de", DE);
      (js "it-it", IT); (js "it", IT);
      (js "pt-br", PT); (js "pt", PT);
      (js "ru-ru", RU); (js "ru", RU);
      (js "zh-cn", ZH); (js "zh-hans", ZH); (js "zh", ZH);
      (js "ja-jp", JA); (js "ja", JA);
      (js "ko-kr", KO); (js "ko", KO);
      (js "ar-sa", AR); (js "ar", AR);
      (js "hi-in", HI); (js "hi", HI);
      (js "tr-tr", TR); (js "tr", TR) ].

Definition LANGUAGE_DISPLAY_NAME : gmap jsstring jsstring :=
  list_to_map
    [ (Languages_value EN, js "English");
      (Languages_value ES, js "Spanish");
      (Languages_value FR, js "French");
      (Languages_value DE, js "German");
      (Languages_value IT, js "Italian");
      (Languages_value PT, js "Portuguese");
      (Languages_value RU, js "Russian");
      (Languages_value ZH, js "Chinese");
      (Languages_value JA, js "Japanese");
      (Languages_value KO, js "Korean");
      (Languages_value AR, js "Arabic");
      (Languages_value HI, js "Hindi");
      (Languages_value TR, js "Turkish") ].

(** ** Intl.Locale

    [new Intl.Locale(tag)] throws a RangeError unless the tag is a
    structurally valid language tag: it follows the grammar of
    [unicode_locale_id] with hyphens as separators, repeats no variant
    and no extension singleton.  The grammar is read subtag by subtag.
    An accepted tag is put in canonical form with the locale data of the
    runtime (deprecated codes are replaced by their current ones: eng
    becomes en, zh-hakka becomes hak), and the [language] property is the
    language of that form.  The locale data is not in the sources: it is
    a parameter of the model, [LocaleData] below. *)

(** The subtags of a tag: its pieces between hyphens. *)
Fixpoint subtags (s : jsstring) : list jsstring :=
  match s with
  | [] => [[]]
  | c :: s' =>
      if c =? 45 then [] :: subtags s'
      else match subtags s' with
           | t :: ts => (c :: t) :: ts
           | [] => [[c]]
           end
  end.

Definition len_in (lo hi : nat) (t : jsstring) : bool :=
  Nat.leb lo (length t) && Nat.leb (length t) hi.

(** alpha{2,3} | alpha{5,8} *)
Definition is_language_subtag (t : jsstring) : bool :=
  forallb isAlpha t && (len_in 2 3 t || len_in 5 8 t).
(** alpha{4} *)
Definition is_script_subtag (t : jsstring) : bool :=
  forallb isAlpha t && len_in 4 4 t.
(** alpha{2} | digit{3} *)
Definition is_region_subtag (t : jsstring) : bool :=
  (forallb isAlpha t && len_in 2 2 t) || (forallb isDigit t && len_in 3 3 t).
(** alphanum{5,8} | digit alphanum{3} *)
Definition is_variant_subtag (t : jsstring) : bool :=
  forallb isAlnum t &&
  (len_in 5 8 t || (len_in 4 4 t && match t with c :: _ => isDigit c | [] => false end)).
(** The key of a [u] extension: alphanum alpha. *)
Definition is_ukey (t : jsstring) : bool :=
  match t with [a; b] => isAlnum a && isAlpha b | _ => false end.
(** The key of a [t] extension: alpha digit. *)
Definition is_tkey (t : jsstring) : bool :=
  match t with [a; b] => isAlpha a && isDigit b | _ => false end.
(** alphanum{3,8}: an attribute or a piece of a value. *)
Definition is_value_subtag (t : jsstring) : bool :=
  forallb isAlnum t && len_in 3 8 t.

Inductive tag_position : Type :=
| AtStart
| InLanguageId (phase : nat) (variants : list jsstring)
    (* phase 0: after the language; 1: after the script; 2: after the
       region or a variant *)
| InU (n : nat)                        (* n subtags of the [u] extension read *)
| AfterT
| InTLang (phase : nat) (variants : list jsstring)
| AfterTKey
| InTValue
| InOther (n : nat)
| InPrivateUse (n : nat)
| Malformed.

(** A subtag inside a language id ([unicode_language_id], or the [tlang]
    of a [t] extension); [None] when it does not continue the id. *)
Definition language_id_step (phase : nat) (variants : list jsstring)
    (t : jsstring) : option (nat * list jsstring) :=
  if Nat.eqb phase 0 && is_script_subtag t then Some (1%nat, variants)
  else if Nat.leb phase 1 && is_region_subtag t then Some (2%nat, variants)
  else if is_variant_subtag t then
    if bool_decide (toLowerCase t ∈ variants) then None
    else Some (2%nat, toLowerCase t :: variants)
  else None.

(** A one-character subtag opens an extension; no singleton comes twice. *)
Definition singleton_step (seen : list N) (t : jsstring) : list N * tag_position :=
  match t with
  | [c] =>
      let c' := lower_unit c in
      if negb (isAlnum c) || bool_decide (c' ∈ seen) then (seen, Malformed)
      else if c' =? 120 then (seen, InPrivateUse 0)
      else if c' =? 117 then (c' :: seen, InU 0)
      else if c' =? 116 then (c' :: seen, AfterT)
      else (c' :: seen, InOther 0)
  | _ => (seen, Malformed)
  end.

Definition tag_step (st : list N * tag_position) (t : jsstring) : list N * tag_position :=
  let (seen, pos) := st in
  match pos with
  | Malformed => (seen, Malformed)
  | AtStart => (seen, if is_language_subtag t then InLanguageId 0 [] else Malformed)
  | InLanguageId phase variants =>
      match language_id_step phase variants t with
      | Some (phase', variants') => (seen, InLanguageId phase' variants')
      | None => if is_variant_subtag t then (seen, Malformed) else singleton_step seen t
      end
  | InU n =>
      if is_ukey t || is_value_subtag t then (seen, InU (S n))
      else if Nat.ltb 0 n then singleton_step seen t else (seen, Malformed)
  | AfterT =>
      if is_language_subtag t then (seen, InTLang 0 [])
      else if is_tkey t then (seen, AfterTKey)
      else (seen, Malformed)
  | InTLang phase variants =>
      match language_id_step phase variants t with
      | Some (phase', variants') => (seen, InTLang phase' variants')
      | None =>
          if is_variant_subtag t then (seen, Malformed)
          else if is_tkey t then (seen, AfterTKey)
          else singleton_step seen t
      end
  | AfterTKey => (seen, if is_value_subtag t then InTValue else Malformed)
  | InTValue =>
      if is_value_subtag t then (seen, InTValue)
      else if is_tkey t then (seen, AfterTKey)
      else singleton_step seen t
  | InOther n =>
      if forallb isAlnum t && len_in 2 8 t then (seen, InOther (S n))
      else if Nat.ltb 0 n then singleton_step seen t else (seen, Malformed)
  | InPrivateUse n =>
      (seen, if forallb isAlnum t && len_in 1 8 t then InPrivateUse (S n) else Malformed)
  end.

Definition complete (pos : tag_position) : bool :=
  match pos with
  | InLanguageId _ _ | InTLang _ _ | InTValue => true
  | InU n | InOther n | InPrivateUse n => Nat.ltb 0 n
  | AtStart | AfterT | AfterTKey | Malformed => false
  end.

Definition IsStructurallyValidLanguageTag (tag : jsstring) : bool :=
  complete (snd (fold_left tag_step (subtags tag) ([], AtStart))).

(** The locale data of the runtime, as far as the [language] property
    goes: the language that [Intl.Locale] reports for an accepted tag,
    given the subtags of the tag in lower case (the canonical form does
    not depend on the letter case of the tag), or nothing where the
    engine reports none (V8 gives [undefined] for und).  What is reported
    is a language subtag in lower case; and the keys of
    [LOCALE_TO_LANGUAGE], each a current language code alone or with a
    script or a region, keep the language they are written with. *)
Record LocaleData : Type := {
  reported_language : list jsstring -> option jsstring;
  reported_language_shape :
    forall ts lang, reported_language ts = Some lang ->
      is_language_subtag lang = true /\ toLowerCase lang = lang;
  reported_language_keys :
    forall k l, LOCALE_TO_LANGUAGE !! k = Some l ->
      reported_language (subtags k) = Some (hd [] (subtags k))
}.

(** [intl.language]; [None] is [undefined]. *)
Record Locale : Type := { language : option jsstring }.

Definition Intl_Locale (data : LocaleData) (tag : jsstring) : completion Locale :=
  if IsStructurallyValidLanguageTag tag then
    Return {| language := reported_language data (subtags (toLowerCase tag)) |}
  else Throw RangeError.

(** ** utils/resolveLanguage *)

Definition resolveLanguageFromLocale (data : LocaleData) (locale : jsstring)
  : completion (property Languages) :=
  if is_empty locale then Return Undefined
  else
    let lowerLocale := toLowerCase locale in
    match Intl_Locale data locale with
    | Throw e => Throw e
    | Return intl =>
        match language intl with
        | None => Throw TypeError
        | Some language =>
            let rawLang := toLowerCase language in
            Return match Get LOCALE_TO_LANGUAGE lowerLocale with
                   | Undefined => Get LOCALE_TO_LANGUAGE rawLang
                   | found => found
                   end
        end
    end.

(** Locale data for the examples: a few of the replacements that the
    data of a current runtime makes (eng, cmn, iw, zh-hakka), and no
    language for und. *)
Definition sample_language (ts : list jsstring) : jsstring :=
  let written := hd [] ts in
  if bool_decide (written = js "zh") && bool_decide (js "hakka" ∈ tl ts) then js "hak"
  else if bool_decide (written = js "eng") then js "en"
  else if bool_decide (written = js "cmn") then js "zh"
  else if bool_decide (written = js "iw") then js "he"
  else written.

Definition sample_reported_language (ts : list jsstring) : option jsstring :=
  let canonical := sample_language ts in
  if is_language_subtag canonical
     && bool_decide (toLowerCase canonical = canonical)
     && negb (bool_decide (canonical = js "und"))
  then Some canonical else None.

Definition sample_locale_data : LocaleData :=
  {| reported_language := sample_reported_language;
     reported_language_shape :=
       ltac:(intros ts lang; unfold sample_reported_language;
             destruct (is_language_subtag (sample_language ts)) eqn:E1;
               [| discriminate ];
             destruct (bool_decide (toLowerCase (sample_language ts) = sample_language ts))
               eqn:E2; [| discriminate ];
             destruct (bool_decide (sample_language ts = js "und")); [ discriminate |];
             intros H; injection H as <-;
             split; [ exact E1 | exact (bool_decide_eq_true_1 _ E2) ]);
     reported_language_keys :=
       ltac:(intros k l H; unfold LOCALE_TO_LANGUAGE in H;
             apply elem_of_list_to_map_2, list_elem_of_In in H; simpl in H;
             repeat (destruct H as [H | H];
                     [ injection H as <- <-; vm_compute; reflexivity |]);
             destruct H) |}.

(** ** The world outside the functions

    What the code reads and changes besides its arguments: the static
    field of PromptLoader, the file system (as a count of the reads of
    prompts.json), the two ambient places a credential can come from,
    and the requests made to the remote model. *)

Record PromptData : Type := {
  description : jsstring;
  template : jsstring
}.

Record World : Type := {
  PromptLoader_prompts : option (gmap jsstring PromptData);
  file_reads : nat;
  process_env_GOOGLE_AI_API_KEY : option jsstring;
  globalThis_GOOGLE_AI_API_KEY : option jsstring;
  requests : list jsstring
}.

Definition M (A : Type) : Type := World -> completion A * World.

Definition ret {A : Type} (a : A) : M A := fun w => (Return a, w).
Definition throw {A : Type} (e : exception) : M A := fun w => (Throw e, w).
Definition bind {A B : Type} (m : M A) (f : A -> M B) : M B :=
  fun w =>
    match m w with
    | (Return a, w') => f a w'
    | (Throw e, w') => (Throw e, w')
    end.

Notation "'let*' x ':=' m 'in' k" := (bind m (fun x => k))
  (at level 10, x name, m at level 100, k at level 200).

(** [a ?? b] *)
Definition nullish {A : Type} (a b : option A) : option A :=
  match a with Some x => Some x | None => b end.

(** The truthiness of an optional string: undefined and the empty string
    are falsy. *)
Definition truthy (o : option jsstring) : option jsstring :=
  match o with
  | Some s => if is_empty s then None else Some s
  | None => None
  end.

Record GenerationConfig : Type := {
  temperature : Q;
  maxOutputTokens : N;
  topP : Q;
  topK : N
}.

Record KaruOptions : Type := {
  apiKey : option jsstring;
  modelName : option jsstring;
  generationConfig : option GenerationConfig
}.

Record SummaryOptions : Type := {
  length_option : option SummaryLength;
  style_option : option SummaryStyle
}.

Record TranslateResult : Type := {
  cleaned : jsstring;
  translated : jsstring
}.

(** The handle [getGenerativeModel] returns; building it sends nothing. *)
Record GenerativeModel : Type := {
  model_apiKey : jsstring;
  model_name : jsstring;
  model_generationConfig : GenerationConfig
}.

Record KaruAssistant : Type := { model : GenerativeModel }.

(** What [PromptLoader.get] evaluates to. *)
Inductive PromptLoader_result : Type :=
| data (d : PromptData)
| null
| inherited_member (name : jsstring).

Section Program.
(** The parsed content of prompts.json at its n-th read, or the failure
    of [readFileSync] or [JSON.parse]. *)
Variable prompts_json : nat -> completion (gmap jsstring PromptData).

(** The text the remote model answers to a prompt, given the requests
    made so far, or the failure of the call. *)
Variable remote : GenerativeModel -> list jsstring -> jsstring -> completion jsstring.

(** *** helpers/PromptLoader *)

Definition PromptLoader_load : M (gmap jsstring PromptData) :=
  fun w =>
    match PromptLoader_prompts w with
    | Some prompts => (Return prompts, w)
    | None =>
        let w' := {| PromptLoader_prompts := PromptLoader_prompts w;
                     file_reads := S (file_reads w);
                     process_env_GOOGLE_AI_API_KEY := process_env_GOOGLE_AI_API_KEY w;
                     globalThis_GOOGLE_AI_API_KEY := globalThis_GOOGLE_AI_API_KEY w;
                     requests := requests w |} in
        match prompts_json (file_reads w) with
        | Throw e => (Throw e, w')
        | Return parsed =>
            (Return parsed,
             {| PromptLoader_prompts := Some parsed;
                file_reads := file_reads w';
                process_env_GOOGLE_AI_API_KEY := process_env_GOOGLE_AI_API_KEY w';
                globalThis_GOOGLE_AI_API_KEY := globalThis_GOOGLE_AI_API_KEY w';
                requests := requests w' |})
        end
    end.

Definition PromptLoader_get (key : jsstring) : M PromptLoader_result :=
  let* prompts := PromptLoader_load in
  ret match Get prompts key with
      | Own d => data d
      | Inherited name => inherited_member name
      | Undefined => null
      end.

(** [PromptLoader.get(key)?.template] *)
Definition template_of (r : PromptLoader_result) : option jsstring :=
  match r with
  | data d => Some (template d)
  | null | inherited_member _ => None
  end.

(** *** classes/KaruAssistant *)

Definition default_modelName : jsstring := js "gemma-3n-e4b-it".
Definition default_generationConfig : GenerationConfig :=
  {| temperature := 3 # 10; maxOutputTokens := 1024; topP := 9 # 10; topK := 10 |}.

Definition missing_api_key : exception :=
  Error (js "Missing API key. Provide via options.apiKey, process.env.GOOGLE_AI_API_KEY, or globalThis.GOOGLE_AI_API_KEY.").

(** [new GoogleGenerativeAI(apiKey).getGenerativeModel({ model,
    generationConfig })].  The SDK is not in the sources; what is
    modelled of it is that the call refuses a model name that is empty
    and otherwise makes a handle that keeps what it was given. *)
Definition getGenerativeModel (apiKey modelName : jsstring)
    (generationConfig : GenerationConfig) : completion GenerativeModel :=
  if is_empty modelName then Throw GoogleGenerativeAIError
  else Return {| model_apiKey := apiKey;
                 model_name := modelName;
                 model_generationConfig := generationConfig |}.

Definition KaruAssistant_constructor (options : KaruOptions) : M KaruAssistant :=
  fun w =>
    let apiKey :=
      nullish (nullish (apiKey options) (process_env_GOOGLE_AI_API_KEY w))
              (globalThis_GOOGLE_AI_API_KEY w) in
    match truthy apiKey with
    | None => (Throw missing_api_key, w)
    | Some key =>
        let modelName := default default_modelName (modelName options) in
        let generationConfig :=
          default default_generationConfig (generationConfig options) in
        match getGenerativeModel key modelName generationConfig with
        | Return model => (Return {| model := model |}, w)
        | Throw e => (Throw e, w)
        end
    end.

(** [await this.model.generateContent(prompt)] followed by
    [result.response.text()]. *)
Definition generateContent (self : KaruAssistant) (prompt : jsstring) : M jsstring :=
  fun w =>
    (remote (model self) (requests w) prompt,
     {| PromptLoader_prompts := PromptLoader_prompts w;
        file_reads := file_reads w;
        process_env_GOOGLE_AI_API_KEY := process_env_GOOGLE_AI_API_KEY w;
        globalThis_GOOGLE_AI_API_KEY := globalThis_GOOGLE_AI_API_KEY w;
        requests := requests w ++ [prompt] |}).

Definition ask (self : KaruAssistant) (text : jsstring) : M jsstring :=
  generateContent self text.

Definition lengthMap (length : SummaryLength) : jsstring :=
  match length with
  | SHORT => js "2-3 sentences"
  | MEDIUM => js "1-2 paragraphs"
  | LONG => js "3-4 paragraphs"
  end.

(** The chain of [replace] calls of [summarize]. *)
Definition summarize_prompt (promptTemplate text : jsstring)
    (language : Languages) (length : SummaryLength) (style : SummaryStyle) : jsstring :=
  String_replace (js "{text}") text
    (String_replace (js "{style}") (SummaryStyle_value style)
      (String_replace (js "{length}") (lengthMap length)
        (String_replace (js "{language}") (Languages_value language) promptTemplate))).

Definition summarize (self : KaruAssistant) (text : jsstring)
    (language : option Languages) (options : SummaryOptions) : M jsstring :=
  let language := default EN language in
  let length := default MEDIUM (length_option options) in
  let style := default PROFESSIONAL (style_option options) in
  let* found := PromptLoader_get (js "summarize") in
  match truthy (template_of found) with
  | None => throw (Error (js "Summarize prompt template not found"))
  | Some promptTemplate =>
      let prompt := summarize_prompt promptTemplate text language length style in
      generateContent self prompt
  end.

(** [text.replace(/<a?:.+?:\d{18}>/g, "").trim()] *)
Definition inputText_of (text : jsstring) : jsstring :=
  trim (RegExp_replace_all re_emoji [] text).

(** [fromLanguage ? fromLanguage : ""] *)
Definition fromLangStr_of (fromLanguage : option jsstring) : jsstring :=
  default [] (truthy fromLanguage).

(** The three [replace] calls of [translate], in their order. *)
Definition translate_prompt (promptTemplate inputText finalTargetLang : jsstring)
    (fromLanguage : option jsstring) : jsstring :=
  let prompt :=
    String_replace (js "{text}") inputText
      (RegExp_replace_all re_targetLanguage finalTargetLang promptTemplate) in
  RegExp_replace_all re_fromLanguage (fromLangStr_of fromLanguage) prompt.

Definition malformed_response : exception := Error (js "Malformed response from AI").

(** The parsing of the response text of [translate]. *)
Definition translate_parse (response : jsstring) : completion TranslateResult :=
  let raw := trim response in
  let cleanedMatch := String_match re_cleaned raw in
  let translatedMatch := String_match re_translated raw in
  let cleaned := trim <$> (cleanedMatch ≫= capture1) in
  let translated := trim <$> (translatedMatch ≫= capture1) in
  match truthy cleaned, truthy translated with
  | Some cleaned, Some translated =>
      Return {| cleaned := cleaned; translated := translated |}
  | _, _ => Throw malformed_response
  end.

Definition translate (self : KaruAssistant) (text targetLanguage : jsstring)
    (fromLanguage : option jsstring) : M TranslateResult :=
  let inputText := inputText_of text in
  let finalTargetLang := targetLanguage in
  let* found := PromptLoader_get (js "translate") in
  match truthy (template_of found) with
  | None => throw (Error (js "Translate prompt template not found"))
  | Some promptTemplate =>
      let prompt := translate_prompt promptTemplate inputText finalTargetLang fromLanguage in
      let* response := generateContent self prompt in
      fun w => (translate_parse response, w)
  end.
End Program.

(** ** Notions and sample data used in the statements *)

(** A source yields a credential when it holds a string that is not empty. *)
Definition yields (source : option jsstring) (key : jsstring) : Prop :=
  source = Some key /\ key <> [].

Definition world_with (env global : option jsstring) : World :=
  {| PromptLoader_prompts := None; file_reads := 0;
     process_env_GOOGLE_AI_API_KEY := env;
     globalThis_GOOGLE_AI_API_KEY := global;
     requests := [] |}.

Definition options_with (key : option jsstring) : KaruOptions :=
  {| apiKey := key; modelName := None; generationConfig := None |}.

(** A catalog with the three prompt names the assistant asks for; the
    templates are examples. *)
Definition example_prompts : gmap jsstring PromptData :=
  list_to_map
    [ (js "summarize",
       {| description := js "Summarize a text";
          template := js "Summarize in {language}, {length}, {style} style: {text}" |});
      (js "keypoints",
       {| description := js "Key points of a text";
          template := js "List {count} key points in {language}: {text}" |});
      (js "translate",
       {| description := js "Translate a text";
          template := js "Translate from {fromLanguage} to {targetLanguage}: {text}" |}) ].

(** ** The specification's wording, as functions

    These follow the sentences of the specification and not the calls of
    the code; the properties below compare the two. *)

(** A value that holds no dollar sign is taken as it is by [replace]. *)
Definition dollar_free (value : jsstring) : bool :=
  forallb (fun c => negb (c =? 36)) value.

(** "the first occurrence of the placeholder is replaced by the value" *)
Definition substitute_first (placeholder value s : jsstring) : jsstring :=
  match indexOf placeholder s with
  | None => s
  | Some i => take i s ++ value ++ drop (i + length placeholder) s
  end.

(** "every occurrence of the placeholder is replaced by the value": walk
    over the string; where the placeholder starts, write the value and
    pass over the placeholder ([inside] counts what is left of it). *)
Fixpoint substitute_every (placeholder value s : jsstring) (inside : nat) : jsstring :=
  match s with
  | [] => []
  | c :: s' =>
      match inside with
      | S n => substitute_every placeholder value s' n
      | O =>
          if starts_with placeholder s
          then value ++ substitute_every placeholder value s' (length placeholder - 1)
          else c :: substitute_every placeholder value s' 0
      end
  end.

(** "the template with every occurrence of {targetLanguage} replaced by the
    target language, every occurrence of {fromLanguage} replaced by the
    source language, and the first occurrence of {text} replaced by the
    cleaned input": one pass over the template, in which the values put
    in are not read again. *)
Fixpoint fill_template (template target from text : jsstring)
    (text_done : bool) (inside : nat) : jsstring :=
  match template with
  | [] => []
  | c :: t =>
      match inside with
      | S n => fill_template t target from text text_done n
      | O =>
          if starts_with (js "{targetLanguage}") template then
            target ++ fill_template t target from text text_done 15
          else if starts_with (js "{fromLanguage}") template then
            from ++ fill_template t target from text text_done 13
          else if negb text_done && starts_with (js "{text}") template then
            text ++ fill_template t target from text true 5
          else c :: fill_template t target from text text_done 0
      end
  end.

(** ** Backtracking over a character set, without fuel

    What the quantifiers of the patterns compute, as plain recursions on
    the input; the matcher is proved equal to them. *)

Section Runs.
Context {R : Type}.
Variable p : N -> bool.
Variable k : jsstring -> option R.

(** [p*]: the longest run first, then shorter ones. *)
Fixpoint greedy_run (s : jsstring) : option R :=
  match s with
  | c :: s' =>
      if p c then
        match greedy_run s' with Some x => Some x | None => k s end
      else k s
  | [] => k []
  end.

(** [p*?]: the shortest run first, then longer ones. *)
Fixpoint lazy_run (s : jsstring) : option R :=
  match k s with
  | Some x => Some x
  | None =>
      match s with
      | c :: s' => if p c then lazy_run s' else None
      | [] => None
      end
  end.
End Runs.

(** Comparison of a pattern literal with the head of the input. *)
Fixpoint starts_with_pattern (ignoreCase : bool) (pat s : jsstring) : bool :=
  match pat, s with
  | [], _ => true
  | p :: pat', c :: s' =>
      (Canonicalize ignoreCase c =? Canonicalize ignoreCase p)
      && starts_with_pattern ignoreCase pat' s'
  | _ :: _, [] => false
  end.

(** String.prototype.includes *)
Definition includes (needle s : jsstring) : bool :=
  match indexOf needle s with Some _ => true | None => false end.

(** "replacing, each at most once at its first occurrence, {language} with
    the language code, {length} with the phrase, {style} with the style
    and {text} with the input text" *)
Definition summarize_prompt_as_specified (template text : jsstring)
    (language : Languages) (length : SummaryLength) (style : SummaryStyle) : jsstring :=
  substitute_first (js "{text}") text
    (substitute_first (js "{style}") (SummaryStyle_value style)
      (substitute_first (js "{length}") (lengthMap length)
        (substitute_first (js "{language}") (Languages_value language) template))).

(** A handle and a world in which the example catalog is on disk. *)
Definition example_assistant : KaruAssistant :=
  {| model := {| model_apiKey := js "key";
                 model_name := default_modelName;
                 model_generationConfig := default_generationConfig |} |}.

Definition example_disk : nat -> completion (gmap jsstring PromptData) :=
  fun _ => Return example_prompts.

(** A remote model that answers every prompt with the same text. *)
Definition answers (response : jsstring)
  : GenerativeModel -> list jsstring -> jsstring -> completion jsstring :=
  fun _ _ _ => Return response.

(** *** Emoji markup, as the specification words it: [<a?:name:18-digit-id>] *)

(** [:] then eighteen digits then [>], at the head of the string. *)
Definition id_suffix (u : jsstring) : bool :=
  match u with
  | c :: v =>
      (c =? 58)
      && (Nat.leb 18 (length v) && forallb isDigit (take 18 v))
      && match drop 18 v with d :: _ => d =? 62 | [] => false end
  | [] => false
  end.

(** What is left of the name after its first code unit: it runs, within
    the line, up to the first place where an id follows. *)
Fixpoint name_rest_length (u : jsstring) : option nat :=
  if id_suffix u then Some 0%nat
  else match u with
       | c :: u' => if isLineTerminator c then None else S <$> name_rest_length u'
       | [] => None
       end.

(** [:name:id>], the part after [<] or [<a]; its length. *)
Definition markup_tail_length (t : jsstring) : option nat :=
  match t with
  | c :: c1 :: u =>
      if (c =? 58) && negb (isLineTerminator c1)
      then (fun n => n + 22)%nat <$> name_rest_length u
      else None
  | _ => None
  end.

(** The length of the markup that starts at the head of the string. *)
Definition emoji_markup_length (s : jsstring) : option nat :=
  match s with
  | c :: s1 =>
      if c =? 60 then
        match s1 with
        | a :: s2 =>
            if a =? 97 then (fun n => 2 + n)%nat <$> markup_tail_length s2
            else (fun n => 1 + n)%nat <$> markup_tail_length s1
        | [] => None
        end
      else None
  | [] => None
  end.

(** "strips the emoji-markup tokens": walk over the text and leave out
    every markup met. *)
Fixpoint remove_emoji_markup (s : jsstring) (inside : nat) : jsstring :=
  match s with
  | [] => []
  | c :: s' =>
      match inside with
      | S n => remove_emoji_markup s' n
      | O =>
          match emoji_markup_length s with
          | Some len => remove_emoji_markup s' (len - 1)
          | None => c :: remove_emoji_markup s' 0
          end
      end
  end.

Definition loaded_world : World :=
  {| PromptLoader_prompts := Some example_prompts; file_reads := 1;
     process_env_GOOGLE_AI_API_KEY := None;
     globalThis_GOOGLE_AI_API_KEY := None;
     requests := [] |}.

(** *** The labelled fields of the response, as the specification words them *)

Fixpoint take_while (p : N -> bool) (s : jsstring) : jsstring :=
  match s with
  | c :: s' => if p c then c :: take_while p s' else []
  | [] => []
  end.

Fixpoint skip_while (p : N -> bool) (s : jsstring) : jsstring :=
  match s with
  | c :: s' => if p c then skip_while p s' else s
  | [] => []
  end.

Definition within_line (c : N) : bool := negb (isLineTerminator c).

(** What follows the first occurrence of the label, in any letter case. *)
Fixpoint after_label (label s : jsstring) : option jsstring :=
  if starts_with_pattern true label s then Some (drop (length label) s)
  else match s with
       | [] => None
       | _ :: s' => after_label label s'
       end.

(** "Label: <rest of line>": the rest of the line the label stands on,
    trimmed; nothing when the label is absent or that rest is empty. *)
Definition rest_of_line_value (label s : jsstring) : option jsstring :=
  match after_label label s with
  | None => None
  | Some rest => truthy (Some (trim (take_while within_line rest)))
  end.

(** The same with the white space after the label passed over first,
    line breaks included: the value is the rest of the line on which the
    first code unit that is not white space stands. *)
Definition labelled_value (label s : jsstring) : option jsstring :=
  match after_label label s with
  | None => None
  | Some rest =>
      truthy (Some (trim (take_while within_line (skip_while isSpace rest))))
  end.

Definition fields_of (value : jsstring -> jsstring -> option jsstring)
    (response : jsstring) : completion TranslateResult :=
  match value (js "Cleaned:") (trim response),
        value (js "Translated:") (trim response) with
  | Some c, Some t => Return {| cleaned := c; translated := t |}
  | _, _ => Throw malformed_response
  end.

(** What [(.+)] gives at the head of [r], for a match that began on a
    string of length [L]. *)
Definition line_capture (L : nat) (r : jsstring) : option (nat * option jsstring) :=
  match r with
  | c :: _ =>
      if isLineTerminator c then None
      else Some ((L - length (skip_while within_line r))%nat,
                 Some (take_while within_line r))
  | [] => None
  end.

(** The capture of a match as the code uses it: trimmed, and nothing
    when it is missing or empty. *)
Definition usable (o : option (option jsstring)) : option jsstring :=
  truthy (trim <$> (o ≫= id)).

(** No end of [a] is a start of [b] or starts with [b]: in no
    string does an occurrence of [b] begin inside an occurrence of [a]. *)
Definition never_begins_inside (a b : jsstring) : bool :=
  forallb (fun k => negb (starts_with (drop k a) b) && negb (starts_with b (drop k a)))
          (seq 0 (length a)).

(** Occurrences of [a] and of [b] never overlap. *)
Definition apart (a b : jsstring) : bool :=
  never_begins_inside a b && never_begins_inside b a.

From Stdlib Require DecimalString.

(** ** classes/KaruAssistant: getKeyPoints *)

(** A Number, as [Number::toString] reads it: NaN, an infinity, zero
    (of either sign), or a finite value that is not zero, given by its
    sign and the integers [s] and [n] of the standard: with [k] the
    count of decimal digits of [s], the value is [s] times ten to the
    [n - k], and [k] is as small as possible ([s] does not end in 0).
    The count 5 is [Finite false 5 1], 1200 is [Finite false 12 4], 0.25
    is [Finite false 25 0]. *)
Inductive number : Type :=
| NaN
| Infinity (negative : bool)
| Zero
| Finite (negative : bool) (s : positive) (n : Z).

Definition digits_of (s : positive) : jsstring :=
  js (DecimalString.NilEmpty.string_of_uint (Pos.to_uint s)).

Definition decimal_of (e : Z) : jsstring :=
  js (DecimalString.NilZero.string_of_uint (N.to_uint (Z.to_N (Z.abs e)))).

(** [Number::toString(x, 10)] for a finite [x] above zero. *)
Definition Number_toString_positive (s : positive) (n : Z) : jsstring :=
  let digits := digits_of s in
  let k := Z.of_nat (length digits) in
  if ((k <=? n) && (n <=? 21))%Z then
    digits ++ repeat 48%N (Z.to_nat (n - k))
  else if ((0 <? n) && (n <=? 21))%Z then
    take (Z.to_nat n) digits ++ js "." ++ drop (Z.to_nat n) digits
  else if ((-6 <? n) && (n <=? 0))%Z then
    js "0." ++ repeat 48%N (Z.to_nat (- n)) ++ digits
  else
    let e := (n - 1)%Z in
    let sign := if (e <? 0)%Z then js "-" else js "+" in
    if (k =? 1)%Z then digits ++ js "e" ++ sign ++ decimal_of e
    else take 1 digits ++ js "." ++ drop 1 digits ++ js "e" ++ sign ++ decimal_of e.

(** [maxPoints.toString()] *)
Definition Number_toString (x : number) : jsstring :=
  match x with
  | NaN => js "NaN"
  | Zero => js "0"
  | Infinity negative => (if negative then js "-" else []) ++ js "Infinity"
  | Finite negative s n =>
      (if negative then js "-" else []) ++ Number_toString_positive s n
  end.

(** The count 5, the default of [maxPoints]. *)
Definition five : number := Finite false 5 1.

Section KeyPoints.
Variable prompts_json : nat -> completion (gmap jsstring PromptData).
Variable remote : GenerativeModel -> list jsstring -> jsstring -> completion jsstring.

(** The chain of [replace] calls of [getKeyPoints]. *)
Definition getKeyPoints_prompt (promptTemplate text : jsstring)
    (language : Languages) (maxPoints : number) : jsstring :=
  String_replace (js "{text}") text
    (String_replace (js "{language}") (Languages_value language)
      (String_replace (js "{count}") (Number_toString maxPoints) promptTemplate)).

Definition getKeyPoints (self : KaruAssistant) (text : jsstring)
    (language : option Languages) (maxPoints : option number) : M jsstring :=
  let language := default EN language in
  let maxPoints := default five maxPoints in
  let* found := PromptLoader_get prompts_json (js "keypoints") in
  match truthy (template_of found) with
  | None => throw (Error (js "Key points prompt template not found"))
  | Some promptTemplate =>
      let prompt := getKeyPoints_prompt promptTemplate text language maxPoints in
      generateContent remote self prompt
  end.
End KeyPoints.

(** "{count}, {language} and {text} replaced, first occurrence each" *)
Definition getKeyPoints_prompt_as_specified (template text : jsstring)
    (language : Languages) (maxPoints : number) : jsstring :=
  substitute_first (js "{text}") text
    (substitute_first (js "{language}") (Languages_value language)
      (substitute_first (js "{count}") (Number_toString maxPoints) template)).

(** [PromptLoader.get(name)?.template] when it passes the test
    [if (!promptTemplate)]: the template the catalog holds under the
    name, unless there is none or it is the empty string. *)
Definition usable_template (catalog : gmap jsstring PromptData) (name : jsstring)
  : option jsstring :=
  truthy (template <$> catalog !! name).

(** The world after one more request. *)
Definition sent (prompt : jsstring) (w : World) : World :=
  {| PromptLoader_prompts := PromptLoader_prompts w;
     file_reads := file_reads w;
     process_env_GOOGLE_AI_API_KEY := process_env_GOOGLE_AI_API_KEY w;
     globalThis_GOOGLE_AI_API_KEY := globalThis_GOOGLE_AI_API_KEY w;
     requests := requests w ++ [prompt] |}.

(** An outcome of an operation started in [w] that made no request and
    failed, or made one request and is what the remote model gave for
    it, passed through [post]. *)
Definition at_most_one_request {A : Type}
    (remote : GenerativeModel -> list jsstring -> jsstring -> completion jsstring)
    (self : KaruAssistant) (post : jsstring -> completion A)
    (w : World) (out : completion A * World) : Prop :=
  (requests (snd out) = requests w /\ exists e, fst out = Throw e) \/
  (exists prompt,
     requests (snd out) = requests w ++ [prompt] /\
     fst out = match remote (model self) (requests w) prompt with
               | Return response => post response
               | Throw e => Throw e
               end).

(** A run of [PromptLoader.get] calls, one after the other. *)
Definition gets (prompts_json : nat -> completion (gmap jsstring PromptData))
    (keys : list jsstring) (w : World) : World :=
  fold_left (fun w' key => snd (PromptLoader_get prompts_json key w')) keys w.

(** The letters of a label in capitals, to compare labels whatever their
    letter case. *)
Definition toUpperCase (s : jsstring) : jsstring := map upper_unit s.

(** A value as a response line carries it: not empty, no white space at
    either end, no line break inside. *)
Definition plain_line (v : jsstring) : Prop :=
  isSpace (hd 32 v) = false /\
  isSpace (List.last v 32) = false /\
  forallb within_line v = true.

Definition colon_free (v : jsstring) : bool := forallb (fun c => negb (c =? 58)) v.

(** A world in which the given catalog is loaded. *)
Definition world_of (catalog : gmap jsstring PromptData) : World :=
  {| PromptLoader_prompts := Some catalog; file_reads := 1;
     process_env_GOOGLE_AI_API_KEY := None;
     globalThis_GOOGLE_AI_API_KEY := None;
     requests := [] |}.

(** A catalog whose "keypoints" template is the empty string. *)
Definition empty_keypoints : gmap jsstring PromptData :=
  list_to_map [ (js "keypoints", {| description := js "Key points"; template := [] |}) ].

(** [x] stands in [s] as it is, in one piece. *)
Definition occurs_in (x s : jsstring) : Prop := exists a b, s = a ++ x ++ b.

(** * Properties *)

(** ** The built-in operations on examples *)

Example String_replace_first_only :
  String_replace (js "{x}") (js "1") (js "a{x}b{x}") = js "a1b{x}".
Proof. reflexivity. Qed.

Example String_replace_dollar :
  String_replace (js "{x}") (js "<$&|$$>") (js "a{x}b") = js "a<{x}|$>b".
Proof. reflexivity. Qed.

Example re_emoji_example :
  RegExp_replace_all re_emoji []
    (js "hello <a:wave:123456789012345678> world") = js "hello  world".
Proof. vm_compute. reflexivity. Qed.

Example re_cleaned_example :
  capture1 <$> String_match re_cleaned (js "Cleaned: hi" ++ LF ++ js "Translated: bonjour")
  = Some (Some (js "hi")).
Proof. vm_compute. reflexivity. Qed.

Example re_cleaned_next_line :
  capture1 <$> String_match re_cleaned (js "cleaned:" ++ LF ++ js "Translated: bonjour")
  = Some (Some (js "Translated: bonjour")).
Proof. vm_compute. reflexivity. Qed.

Example re_targetLanguage_example :
  RegExp_replace_all re_targetLanguage (js "fr")
    (js "to {targetLanguage}, {targetLanguage}!") = js "to fr, fr!".
Proof. vm_compute. reflexivity. Qed.

Example LOCALE_TO_LANGUAGE_pt_br : LOCALE_TO_LANGUAGE !! js "pt-br" = Some PT.
Proof. vm_compute. reflexivity. Qed.

Example LOCALE_TO_LANGUAGE_constructor :
  Get LOCALE_TO_LANGUAGE (js "constructor") = Inherited (js "constructor").
Proof. vm_compute. reflexivity. Qed.

Example Intl_Locale_en_US :
  Intl_Locale sample_locale_data (js "en-US") = Return {| language := Some (js "en") |}.
Proof. vm_compute. reflexivity. Qed.

Example Intl_Locale_zh_Hans_CN :
  Intl_Locale sample_locale_data (js "ZH-Hans-CN-u-nu-hanidec")
  = Return {| language := Some (js "zh") |}.
Proof. vm_compute. reflexivity. Qed.

Example Intl_Locale_eng :
  Intl_Locale sample_locale_data (js "ENG-us") = Return {| language := Some (js "en") |}.
Proof. vm_compute. reflexivity. Qed.

Example Intl_Locale_zh_hakka :
  Intl_Locale sample_locale_data (js "zh-hakka") = Return {| language := Some (js "hak") |}.
Proof. vm_compute. reflexivity. Qed.

Example Intl_Locale_und :
  Intl_Locale sample_locale_data (js "und") = Return {| language := None |}.
Proof. vm_compute. reflexivity. Qed.

Example Intl_Locale_underscore :
  Intl_Locale sample_locale_data (js "en_US") = Throw RangeError.
Proof. vm_compute. reflexivity. Qed.

Example Intl_Locale_one_letter : Intl_Locale sample_locale_data (js "e") = Throw RangeError.
Proof. vm_compute. reflexivity. Qed.

Example Intl_Locale_twice_u :
  Intl_Locale sample_locale_data (js "en-u-ca-u-nu") = Throw RangeError.
Proof. vm_compute. reflexivity. Qed.

Example resolve_PT_br :
  resolveLanguageFromLocale sample_locale_data (js "PT-br") = Return (Own PT).
Proof. vm_compute. reflexivity. Qed.

Example resolve_en_ZZ :
  resolveLanguageFromLocale sample_locale_data (js "en-ZZ") = Return (Own EN).
Proof. vm_compute. reflexivity. Qed.

Example resolve_xx_yy :
  resolveLanguageFromLocale sample_locale_data (js "xx-yy") = Return Undefined.
Proof. vm_compute. reflexivity. Qed.

(** ** The language catalog *)

Lemma Languages_value_inj (a b : Languages) :
  Languages_value a = Languages_value b -> a = b.
Proof. destruct a, b; intros H; solve [ reflexivity | vm_compute in H; discriminate H ]. Qed.

(** C8: every member of the Languages enumeration has an entry in
    LANGUAGE_DISPLAY_NAME, and that entry is not the empty string. *)
Theorem LANGUAGE_DISPLAY_NAME_total (l : Languages) :
  exists name : jsstring,
    Get LANGUAGE_DISPLAY_NAME (Languages_value l) = Own name /\ name <> [].
Proof.
  destruct l; eexists; (split; [ vm_compute; reflexivity | discriminate ]).
Qed.

(** ** The locale resolver *)

Lemma subtags_not_nil (s : jsstring) : subtags s <> [].
Proof.
  destruct s as [| c s]; simpl; [ discriminate |].
  destruct (c =? 45); [ discriminate |].
  destruct (subtags s); discriminate.
Qed.

Lemma subtags_no_hyphen (s : jsstring) :
  forallb (fun c => negb (c =? 45)) s = true -> subtags s = [s].
Proof.
  induction s as [| c s IH]; simpl; [ reflexivity |].
  intros H. apply andb_prop in H as [Hc Hs].
  destruct (c =? 45); [ discriminate |].
  rewrite (IH Hs). reflexivity.
Qed.

Lemma lower_unit_hyphen (c : N) : (lower_unit c =? 45) = (c =? 45).
Proof.
  unfold lower_unit. destruct (isUpper c) eqn:E; [| reflexivity ].
  unfold isUpper in E. apply andb_prop in E as [E1 E2].
  apply N.leb_le in E1, E2.
  destruct (N.eqb_spec (c + 32) 45), (N.eqb_spec c 45); try reflexivity; lia.
Qed.

Lemma toLowerCase_no_hyphen (s : jsstring) :
  forallb (fun c => negb (c =? 45)) (toLowerCase s) = true ->
  forallb (fun c => negb (c =? 45)) s = true.
Proof.
  induction s as [| c s IH]; simpl; [ reflexivity |].
  rewrite lower_unit_hyphen. intros H. apply andb_prop in H as [Hc Hs].
  rewrite Hc, (IH Hs). reflexivity.
Qed.

Lemma lower_unit_alpha (c : N) : isAlpha c = true -> isLower (lower_unit c) = true.
Proof.
  unfold isAlpha, lower_unit. destruct (isUpper c) eqn:E; simpl.
  - intros _. unfold isUpper in E. apply andb_prop in E as [E1 E2].
    apply N.leb_le in E1, E2. unfold isLower.
    apply andb_true_intro; split; apply N.leb_le; lia.
  - intros H. exact H.
Qed.

Lemma toLowerCase_alpha (t : jsstring) :
  forallb isAlpha t = true -> forallb isLower (toLowerCase t) = true.
Proof.
  induction t as [| c t IH]; simpl; [ reflexivity |].
  intros H. apply andb_prop in H as [Hc Ht].
  rewrite (lower_unit_alpha c Hc), (IH Ht). reflexivity.
Qed.

Lemma is_language_subtag_shape (t : jsstring) :
  is_language_subtag t = true ->
  forallb isLower (toLowerCase t) = true /\ (length (toLowerCase t) <= 8)%nat.
Proof.
  unfold is_language_subtag, len_in. intros H.
  apply andb_prop in H as [Ha Hl]. split; [ apply toLowerCase_alpha, Ha |].
  unfold toLowerCase. rewrite length_map.
  apply orb_prop in Hl as [Hl | Hl]; apply andb_prop in Hl as [_ Hl];
    apply Nat.leb_le in Hl; lia.
Qed.

(** No name that objects inherit is a short run of lower-case letters. *)
Lemma lower_word_not_inherited (s : jsstring) :
  forallb isLower s = true -> (length s <= 8)%nat ->
  s ∉ Object_prototype_names.
Proof.
  intros Hl Hn Hin. apply list_elem_of_In in Hin.
  unfold Object_prototype_names in Hin. simpl in Hin.
  repeat (destruct Hin as [<- | Hin];
          [ first [ discriminate Hl | simpl in Hn; lia ] |]).
  exact Hin.
Qed.

Lemma inherited_names_no_hyphen (s : jsstring) :
  s ∈ Object_prototype_names -> forallb (fun c => negb (c =? 45)) s = true.
Proof.
  intros Hin. apply list_elem_of_In in Hin.
  unfold Object_prototype_names in Hin. simpl in Hin.
  repeat (destruct Hin as [<- | Hin]; [ reflexivity |]).
  destruct Hin.
Qed.

Lemma tag_step_Malformed (ts : list jsstring) (seen : list N) :
  snd (fold_left tag_step ts (seen, Malformed)) = Malformed.
Proof. induction ts as [| t ts IH]; simpl; [ reflexivity | apply IH ]. Qed.

(** A tag that [Intl.Locale] accepts starts with a language subtag. *)
Lemma valid_tag_language (tag : jsstring) :
  IsStructurallyValidLanguageTag tag = true ->
  is_language_subtag (hd [] (subtags tag)) = true.
Proof.
  unfold IsStructurallyValidLanguageTag.
  pose proof (subtags_not_nil tag) as Hne.
  destruct (subtags tag) as [| t ts]; [ congruence |]. simpl.
  destruct (is_language_subtag t); [ reflexivity |].
  rewrite tag_step_Malformed. discriminate.
Qed.

Lemma Intl_Locale_wellformed (data : LocaleData) (tag : jsstring) (intl : Locale) :
  Intl_Locale data tag = Return intl ->
  is_language_subtag (hd [] (subtags tag)) = true /\
  language intl = reported_language data (subtags (toLowerCase tag)).
Proof.
  unfold Intl_Locale.
  destruct (IsStructurallyValidLanguageTag tag) eqn:Hv; [| discriminate ].
  intros [= <-]. split; [ apply valid_tag_language, Hv | reflexivity ].
Qed.

(** *** Only ASCII letters, digits and hyphens make a tag *)

Lemma alpha_alnum (t : jsstring) : forallb isAlpha t = true -> forallb isAlnum t = true.
Proof.
  intros H. rewrite forallb_forall in *. intros c Hc.
  unfold isAlnum. rewrite (H c Hc). reflexivity.
Qed.

Lemma digit_alnum (t : jsstring) : forallb isDigit t = true -> forallb isAlnum t = true.
Proof.
  intros H. rewrite forallb_forall in *. intros c Hc.
  unfold isAlnum. rewrite (H c Hc). apply orb_true_r.
Qed.

Lemma is_language_subtag_alnum (t : jsstring) :
  is_language_subtag t = true -> forallb isAlnum t = true.
Proof.
  unfold is_language_subtag. intros H. apply andb_prop in H as [H _].
  apply alpha_alnum, H.
Qed.

Lemma is_region_subtag_alnum (t : jsstring) :
  is_region_subtag t = true -> forallb isAlnum t = true.
Proof.
  unfold is_region_subtag. intros H.
  apply orb_prop in H as [H | H]; apply andb_prop in H as [H _];
    [ apply alpha_alnum, H | apply digit_alnum, H ].
Qed.

Lemma is_script_subtag_alnum (t : jsstring) :
  is_script_subtag t = true -> forallb isAlnum t = true.
Proof.
  unfold is_script_subtag. intros H. apply andb_prop in H as [H _].
  apply alpha_alnum, H.
Qed.

Lemma is_variant_subtag_alnum (t : jsstring) :
  is_variant_subtag t = true -> forallb isAlnum t = true.
Proof. unfold is_variant_subtag. intros H. apply andb_prop in H as [H _]. exact H. Qed.

Lemma is_value_subtag_alnum (t : jsstring) :
  is_value_subtag t = true -> forallb isAlnum t = true.
Proof. unfold is_value_subtag. intros H. apply andb_prop in H as [H _]. exact H. Qed.

Lemma is_ukey_alnum (t : jsstring) : is_ukey t = true -> forallb isAlnum t = true.
Proof.
  unfold is_ukey. destruct t as [| a [| b [| ? ?]]]; try discriminate.
  intros H. apply andb_prop in H as [Ha Hb]. simpl.
  unfold isAlnum at 2. rewrite Ha, Hb. reflexivity.
Qed.

Lemma is_tkey_alnum (t : jsstring) : is_tkey t = true -> forallb isAlnum t = true.
Proof.
  unfold is_tkey. destruct t as [| a [| b [| ? ?]]]; try discriminate.
  intros H. apply andb_prop in H as [Ha Hb]. simpl.
  unfold isAlnum. rewrite Ha, Hb, orb_true_r. reflexivity.
Qed.

Lemma language_id_step_alnum (phase : nat) (variants : list jsstring) (t : jsstring)
    (next : nat * list jsstring) :
  language_id_step phase variants t = Some next -> forallb isAlnum t = true.
Proof.
  unfold language_id_step.
  destruct (Nat.eqb phase 0 && is_script_subtag t) eqn:E1.
  { intros _. apply andb_prop in E1 as [_ E1]. apply is_script_subtag_alnum, E1. }
  destruct (Nat.leb phase 1 && is_region_subtag t) eqn:E2.
  { intros _. apply andb_prop in E2 as [_ E2]. apply is_region_subtag_alnum, E2. }
  destruct (is_variant_subtag t) eqn:E3; [| discriminate ].
  intros _. apply is_variant_subtag_alnum, E3.
Qed.

Lemma singleton_step_alnum (seen : list N) (t : jsstring) :
  snd (singleton_step seen t) <> Malformed -> forallb isAlnum t = true.
Proof.
  unfold singleton_step. destruct t as [| c [| ? ?]]; simpl; try congruence.
  destruct (isAlnum c); simpl; [ reflexivity | congruence ].
Qed.

Lemma tag_step_alnum (seen : list N) (pos : tag_position) (t : jsstring) :
  snd (tag_step (seen, pos) t) <> Malformed -> forallb isAlnum t = true.
Proof.
  unfold tag_step.
  destruct pos;
    repeat match goal with
           | |- context [language_id_step ?p ?v ?t] =>
               destruct (language_id_step p v t) as [[? ?] |] eqn:?
           | |- context [if ?b then _ else _] => destruct b eqn:?
           end;
    cbn [snd]; intros H; try congruence;
    repeat match goal with
           | E : (_ || _) = true |- _ => apply orb_prop in E as [E | E]
           | E : (_ && _) = true |- _ => apply andb_prop in E as [E ?]
           end;
    eauto using is_language_subtag_alnum, is_value_subtag_alnum, is_ukey_alnum,
      is_tkey_alnum, language_id_step_alnum, singleton_step_alnum.
Qed.

Lemma tag_steps_alnum (ts : list jsstring) (st : list N * tag_position) :
  snd (fold_left tag_step ts st) <> Malformed ->
  forallb (forallb isAlnum) ts = true.
Proof.
  revert st. induction ts as [| t ts IH]; intros [seen pos]; [ reflexivity |].
  cbn [fold_left forallb]. intros H.
  rewrite (IH _ H), andb_true_r.
  apply (tag_step_alnum seen pos t).
  destruct (tag_step (seen, pos) t) as [seen' pos'] eqn:E. cbn [snd].
  intros ->. apply H. apply tag_step_Malformed.
Qed.

Lemma subtags_alnum (s : jsstring) :
  forallb (forallb isAlnum) (subtags s) = true ->
  forallb (fun c => isAlnum c || (c =? 45)) s = true.
Proof.
  induction s as [| c s IH]; simpl; [ reflexivity |].
  destruct (c =? 45) eqn:Ec.
  - simpl. intros H. rewrite orb_true_r. exact (IH H).
  - destruct (subtags s) as [| t ts] eqn:Es; [ destruct (subtags_not_nil s Es) |].
    simpl. intros H. apply andb_prop in H as [H Hts].
    apply andb_prop in H as [Hc Ht].
    rewrite Hc. simpl. apply IH. simpl. rewrite Ht, Hts. reflexivity.
Qed.

(** [Intl.Locale] accepts no code unit outside ASCII: on what it accepts,
    [toLowerCase] is the lower-casing of ASCII letters. *)
Lemma Intl_Locale_ascii (data : LocaleData) (tag : jsstring) (intl : Locale) :
  Intl_Locale data tag = Return intl ->
  forallb (fun c => isAlnum c || (c =? 45)) tag = true.
Proof.
  unfold Intl_Locale, IsStructurallyValidLanguageTag.
  destruct (complete (snd (fold_left tag_step (subtags tag) ([], AtStart)))) eqn:E;
    [| discriminate ].
  intros _. apply subtags_alnum.
  apply (tag_steps_alnum _ ([], AtStart)). intros Hm. rewrite Hm in E. discriminate E.
Qed.

Lemma lower_unit_idem (c : N) : lower_unit (lower_unit c) = lower_unit c.
Proof.
  unfold lower_unit. destruct (isUpper c) eqn:E.
  - unfold isUpper in E. apply andb_prop in E as [E1 E2].
    apply N.leb_le in E1, E2.
    replace (isUpper (c + 32)) with false; [ reflexivity |].
    symmetry. unfold isUpper. apply andb_false_intro2. apply N.leb_gt. lia.
  - rewrite E. reflexivity.
Qed.

Lemma toLowerCase_idem (s : jsstring) : toLowerCase (toLowerCase s) = toLowerCase s.
Proof.
  unfold toLowerCase. rewrite map_map. apply map_ext. apply lower_unit_idem.
Qed.

(** Once [Intl.Locale] has accepted the tag, neither lookup of
    [resolveLanguageFromLocale] can reach an inherited property. *)
Lemma accepted_lookups_own (data : LocaleData) (tag : jsstring) (intl : Locale) :
  Intl_Locale data tag = Return intl ->
  (toLowerCase tag ∉ Object_prototype_names) /\
  (forall lang, language intl = Some lang ->
     toLowerCase lang ∉ Object_prototype_names).
Proof.
  intros H. apply Intl_Locale_wellformed in H as [Hlang Hrep]. split.
  - apply is_language_subtag_shape in Hlang as [Hl Hn]. intros Hin.
    pose proof (toLowerCase_no_hyphen _ (inherited_names_no_hyphen _ Hin)) as Hh.
    rewrite (subtags_no_hyphen _ Hh) in Hl, Hn. simpl in Hl, Hn.
    exact (lower_word_not_inherited _ Hl Hn Hin).
  - intros lang Hs. rewrite Hrep in Hs.
    destruct (reported_language_shape data _ _ Hs) as [Hshape _].
    apply is_language_subtag_shape in Hshape as [Hl Hn].
    apply lower_word_not_inherited; assumption.
Qed.

Lemma Get_not_inherited {V : Type} (obj : gmap jsstring V) (key : jsstring) :
  key ∉ Object_prototype_names ->
  Get obj key = match obj !! key with Some v => Own v | None => Undefined end.
Proof.
  intros H. unfold Get. destruct (obj !! key); [ reflexivity |].
  rewrite bool_decide_eq_false_2; [ reflexivity | exact H ].
Qed.

(** C4, as the code has it: the empty string gives undefined; a string
    that [Intl.Locale] does not accept as a language tag makes the call
    raise a RangeError; when [Intl.Locale] reports no language for an
    accepted string the call raises a TypeError; and when it reports one,
    the result is the language of the lower-cased string when that is a
    key, else the language of the reported language when that is a key,
    else undefined. *)
Theorem resolveLanguageFromLocale_cases (data : LocaleData) (locale : jsstring) :
  (locale = [] -> resolveLanguageFromLocale data locale = Return Undefined) /\
  (locale <> [] -> forall e : exception, Intl_Locale data locale = Throw e ->
     e = RangeError /\ resolveLanguageFromLocale data locale = Throw RangeError) /\
  (locale <> [] -> forall intl : Locale, Intl_Locale data locale = Return intl ->
     (language intl = None ->
      resolveLanguageFromLocale data locale = Throw TypeError) /\
     (forall lang : jsstring, language intl = Some lang ->
        (forall l : Languages,
           LOCALE_TO_LANGUAGE !! toLowerCase locale = Some l ->
           resolveLanguageFromLocale data locale = Return (Own l)) /\
        (forall l : Languages,
           LOCALE_TO_LANGUAGE !! toLowerCase locale = None ->
           LOCALE_TO_LANGUAGE !! toLowerCase lang = Some l ->
           resolveLanguageFromLocale data locale = Return (Own l)) /\
        (LOCALE_TO_LANGUAGE !! toLowerCase locale = None ->
         LOCALE_TO_LANGUAGE !! toLowerCase lang = None ->
         resolveLanguageFromLocale data locale = Return Undefined))).
Proof.
  split; [| split ].
  - intros ->. reflexivity.
  - intros Hne e He. unfold resolveLanguageFromLocale.
    destruct locale as [| c s]; [ congruence |]. simpl is_empty. cbv iota.
    rewrite He. unfold Intl_Locale in He.
    destruct (IsStructurallyValidLanguageTag (c :: s)); [ discriminate |].
    injection He as <-. split; reflexivity.
  - intros Hne intl Hi. split.
    + intros Hn. unfold resolveLanguageFromLocale.
      destruct locale as [| c s]; [ congruence |]. simpl is_empty. cbv iota.
      rewrite Hi, Hn. reflexivity.
    + intros lang Hs.
      destruct (accepted_lookups_own _ _ _ Hi) as [H1 H2].
      specialize (H2 lang Hs).
      assert (Hres : resolveLanguageFromLocale data locale =
                Return match LOCALE_TO_LANGUAGE !! toLowerCase locale with
                       | Some l => Own l
                       | None =>
                           match LOCALE_TO_LANGUAGE !! toLowerCase lang with
                           | Some l => Own l
                           | None => Undefined
                           end
                       end).
      { unfold resolveLanguageFromLocale.
        destruct locale as [| c s]; [ congruence |]. simpl is_empty. cbv iota.
        rewrite Hi, Hs. rewrite (Get_not_inherited _ _ H1), (Get_not_inherited _ _ H2).
        destruct (LOCALE_TO_LANGUAGE !! toLowerCase (c :: s)); reflexivity. }
      repeat split.
      * intros l Hl. rewrite Hres, Hl. reflexivity.
      * intros l Hn Hl. rewrite Hres, Hn, Hl. reflexivity.
      * intros Hn Hl. rewrite Hres, Hn, Hl. reflexivity.
Qed.

Lemma resolveLanguageFromLocale_cases_witness :
  resolveLanguageFromLocale sample_locale_data [] = Return Undefined /\
  resolveLanguageFromLocale sample_locale_data (js "PT-br") = Return (Own PT) /\
  resolveLanguageFromLocale sample_locale_data (js "en-ZZ") = Return (Own EN) /\
  resolveLanguageFromLocale sample_locale_data (js "eng") = Return (Own EN) /\
  resolveLanguageFromLocale sample_locale_data (js "zh-hakka") = Return Undefined /\
  resolveLanguageFromLocale sample_locale_data (js "xx-yy") = Return Undefined /\
  resolveLanguageFromLocale sample_locale_data (js "und") = Throw TypeError /\
  resolveLanguageFromLocale sample_locale_data (js "en_US") = Throw RangeError.
Proof.
  repeat apply conj.
  - apply (proj1 (resolveLanguageFromLocale_cases sample_locale_data [])). reflexivity.
  - refine (proj1 (proj2 (proj2 (proj2 (resolveLanguageFromLocale_cases
              sample_locale_data (js "PT-br")))
              _ {| language := Some (js "pt") |} _) (js "pt") _) PT _).
    + discriminate.
    + vm_compute. reflexivity.
    + reflexivity.
    + vm_compute. reflexivity.
  - refine (proj1 (proj2 (proj2 (proj2 (proj2 (resolveLanguageFromLocale_cases
              sample_locale_data (js "en-ZZ")))
              _ {| language := Some (js "en") |} _) (js "en") _)) EN _ _).
    + discriminate.
    + vm_compute. reflexivity.
    + reflexivity.
    + vm_compute. reflexivity.
    + vm_compute. reflexivity.
  - refine (proj1 (proj2 (proj2 (proj2 (proj2 (resolveLanguageFromLocale_cases
              sample_locale_data (js "eng")))
              _ {| language := Some (js "en") |} _) (js "en") _)) EN _ _).
    + discriminate.
    + vm_compute. reflexivity.
    + reflexivity.
    + vm_compute. reflexivity.
    + vm_compute. reflexivity.
  - refine (proj2 (proj2 (proj2 (proj2 (proj2 (resolveLanguageFromLocale_cases
              sample_locale_data (js "zh-hakka")))
              _ {| language := Some (js "hak") |} _) (js "hak") _)) _ _).
    + discriminate.
    + vm_compute. reflexivity.
    + reflexivity.
    + vm_compute. reflexivity.
    + vm_compute. reflexivity.
  - refine (proj2 (proj2 (proj2 (proj2 (proj2 (resolveLanguageFromLocale_cases
              sample_locale_data (js "xx-yy")))
              _ {| language := Some (js "xx") |} _) (js "xx") _)) _ _).
    + discriminate.
    + vm_compute. reflexivity.
    + reflexivity.
    + vm_compute. reflexivity.
    + vm_compute. reflexivity.
  - refine (proj1 (proj2 (proj2 (resolveLanguageFromLocale_cases
              sample_locale_data (js "und")))
              _ {| language := None |} _) _).
    + discriminate.
    + vm_compute. reflexivity.
    + reflexivity.
  - refine (proj2 (proj1 (proj2 (resolveLanguageFromLocale_cases
              sample_locale_data (js "en_US")))
              _ RangeError _)).
    + discriminate.
    + vm_compute. reflexivity.
Defined.

(** C4 as stated fails: "en_US" is not empty, its lower-cased form is not
    a key, and the call neither returns a language nor undefined: it
    raises. *)
Lemma resolveLanguageFromLocale_raises :
  js "en_US" <> [] /\
  LOCALE_TO_LANGUAGE !! toLowerCase (js "en_US") = None /\
  resolveLanguageFromLocale sample_locale_data (js "en_US") = Throw RangeError /\
  (forall v : property Languages,
     resolveLanguageFromLocale sample_locale_data (js "en_US") <> Return v).
Proof.
  split; [ discriminate |]. split; [ vm_compute; reflexivity |].
  split; [ vm_compute; reflexivity |].
  intros v H. vm_compute in H. discriminate H.
Qed.

(** ** Construction of the assistant *)

Lemma truthy_Some (key : jsstring) : key <> [] -> truthy (Some key) = Some key.
Proof. destruct key; [ congruence | reflexivity ]. Qed.

Lemma truthy_None_iff (o : option jsstring) :
  truthy o = None <-> forall key, ~ yields o key.
Proof.
  unfold yields. split.
  - intros H key [-> Hne]. rewrite (truthy_Some _ Hne) in H. discriminate.
  - intros H. destruct o as [[| c s] |]; try reflexivity.
    exfalso. apply (H (c :: s)). split; [ reflexivity | discriminate ].
Qed.

(** What the constructor does with the credential it has settled on: it
    hands it to the SDK, which builds the client around it unless the
    model name given is the empty string. *)
Lemma KaruAssistant_constructor_with (options : KaruOptions) (w : World) (key : jsstring) :
  truthy (nullish (nullish (apiKey options) (process_env_GOOGLE_AI_API_KEY w))
                  (globalThis_GOOGLE_AI_API_KEY w)) = Some key ->
  (modelName options <> Some [] ->
   exists a, KaruAssistant_constructor options w = (Return a, w) /\
             model_apiKey (model a) = key) /\
  (modelName options = Some [] ->
   KaruAssistant_constructor options w = (Throw GoogleGenerativeAIError, w)).
Proof.
  intros Hk. unfold KaruAssistant_constructor. rewrite Hk.
  unfold getGenerativeModel. split.
  - intros Hm. destruct (modelName options) as [[| c name] |]; cbn [default is_empty].
    + congruence.
    + eexists; split; reflexivity.
    + eexists; split; reflexivity.
  - intros ->. reflexivity.
Qed.

(** C5: the credential is options.apiKey when that is given, else the
    environment variable when that is set, else the global; the
    constructor hands it to the SDK, which builds the client around it
    (or refuses an empty model name), and whenever a client is built its
    key is the first of the three that is defined.  When no source
    yields a credential the constructor throws the configuration error
    at once: the world is as it was, no request has been made. *)
Theorem KaruAssistant_constructor_credential (options : KaruOptions) (w : World) :
  (forall key, yields (apiKey options) key ->
     (modelName options <> Some [] ->
      exists a, KaruAssistant_constructor options w = (Return a, w) /\
                model_apiKey (model a) = key) /\
     (modelName options = Some [] ->
      KaruAssistant_constructor options w = (Throw GoogleGenerativeAIError, w))) /\
  (forall key, apiKey options = None ->
     yields (process_env_GOOGLE_AI_API_KEY w) key ->
     (modelName options <> Some [] ->
      exists a, KaruAssistant_constructor options w = (Return a, w) /\
                model_apiKey (model a) = key) /\
     (modelName options = Some [] ->
      KaruAssistant_constructor options w = (Throw GoogleGenerativeAIError, w))) /\
  (forall key, apiKey options = None ->
     process_env_GOOGLE_AI_API_KEY w = None ->
     yields (globalThis_GOOGLE_AI_API_KEY w) key ->
     (modelName options <> Some [] ->
      exists a, KaruAssistant_constructor options w = (Return a, w) /\
                model_apiKey (model a) = key) /\
     (modelName options = Some [] ->
      KaruAssistant_constructor options w = (Throw GoogleGenerativeAIError, w))) /\
  (forall a w', KaruAssistant_constructor options w = (Return a, w') ->
     w' = w /\
     match apiKey options with
     | Some key => key
     | None =>
         match process_env_GOOGLE_AI_API_KEY w with
         | Some key => key
         | None => default [] (globalThis_GOOGLE_AI_API_KEY w)
         end
     end = model_apiKey (model a)) /\
  ((forall key, ~ yields (apiKey options) key) ->
   (forall key, ~ yields (process_env_GOOGLE_AI_API_KEY w) key) ->
   (forall key, ~ yields (globalThis_GOOGLE_AI_API_KEY w) key) ->
   KaruAssistant_constructor options w = (Throw missing_api_key, w) /\
   requests (snd (KaruAssistant_constructor options w)) = requests w).
Proof.
  split; [| split; [| split; [| split ]]].
  - intros key [Hk Hne]. apply KaruAssistant_constructor_with.
    rewrite Hk. cbn [nullish]. exact (truthy_Some _ Hne).
  - intros key Hn [Hk Hne]. apply KaruAssistant_constructor_with.
    rewrite Hn, Hk. cbn [nullish]. exact (truthy_Some _ Hne).
  - intros key Hn He [Hk Hne]. apply KaruAssistant_constructor_with.
    rewrite Hn, He, Hk. cbn [nullish]. exact (truthy_Some _ Hne).
  - intros a w'. unfold KaruAssistant_constructor, getGenerativeModel.
    destruct (modelName options) as [[| c0 name] |]; cbn [default is_empty];
      (destruct (apiKey options) as [[| c1 k1] |]; cbn [nullish truthy is_empty];
       try (intros H; injection H as <- <-; split; reflexivity);
       try discriminate;
       destruct (process_env_GOOGLE_AI_API_KEY w) as [[| c2 k2] |];
       cbn [nullish truthy is_empty];
       try (intros H; injection H as <- <-; split; reflexivity);
       try discriminate;
       destruct (globalThis_GOOGLE_AI_API_KEY w) as [[| c3 k3] |];
       cbn [nullish truthy is_empty];
       try (intros H; injection H as <- <-; split; reflexivity);
       discriminate).
  - intros H1 H2 H3. unfold KaruAssistant_constructor.
    apply truthy_None_iff in H1, H2, H3.
    assert (Hn : truthy (nullish (nullish (apiKey options)
                                     (process_env_GOOGLE_AI_API_KEY w))
                            (globalThis_GOOGLE_AI_API_KEY w)) = None).
    { destruct (apiKey options) as [k1 |]; simpl; [ exact H1 |].
      destruct (process_env_GOOGLE_AI_API_KEY w) as [k2 |]; simpl; [ exact H2 |].
      exact H3. }
    rewrite Hn. split; reflexivity.
Qed.

Lemma KaruAssistant_constructor_credential_witness :
  (exists a,
     KaruAssistant_constructor (options_with (Some (js "k1")))
       (world_with (Some (js "k2")) (Some (js "k3")))
     = (Return a, world_with (Some (js "k2")) (Some (js "k3"))) /\
     model_apiKey (model a) = js "k1") /\
  (exists a,
     KaruAssistant_constructor (options_with None)
       (world_with (Some (js "k2")) (Some (js "k3")))
     = (Return a, world_with (Some (js "k2")) (Some (js "k3"))) /\
     model_apiKey (model a) = js "k2") /\
  (exists a,
     KaruAssistant_constructor (options_with None) (world_with None (Some (js "k3")))
     = (Return a, world_with None (Some (js "k3"))) /\
     model_apiKey (model a) = js "k3") /\
  KaruAssistant_constructor
    {| apiKey := Some (js "k1"); modelName := Some []; generationConfig := None |}
    (world_with None None)
  = (Throw GoogleGenerativeAIError, world_with None None) /\
  KaruAssistant_constructor (options_with None) (world_with None None)
  = (Throw missing_api_key, world_with None None).
Proof.
  split; [| split; [| split; [| split ]]].
  - apply (proj1 (KaruAssistant_constructor_credential
                    (options_with (Some (js "k1")))
                    (world_with (Some (js "k2")) (Some (js "k3"))))
                 (js "k1")).
    + split; [ reflexivity | discriminate ].
    + discriminate.
  - apply (proj1 (proj2 (KaruAssistant_constructor_credential
                    (options_with None)
                    (world_with (Some (js "k2")) (Some (js "k3")))))
                 (js "k2")).
    + reflexivity.
    + split; [ reflexivity | discriminate ].
    + discriminate.
  - apply (proj1 (proj2 (proj2 (KaruAssistant_constructor_credential
                    (options_with None) (world_with None (Some (js "k3"))))))
                 (js "k3")).
    + reflexivity.
    + reflexivity.
    + split; [ reflexivity | discriminate ].
    + discriminate.
  - apply (proj1 (KaruAssistant_constructor_credential
                    {| apiKey := Some (js "k1"); modelName := Some [];
                       generationConfig := None |}
                    (world_with None None))
                 (js "k1")).
    + split; [ reflexivity | discriminate ].
    + reflexivity.
  - apply (proj2 (proj2 (proj2 (proj2 (KaruAssistant_constructor_credential
                    (options_with None) (world_with None None)))))).
    + intros key [H _]. discriminate H.
    + intros key [H _]. discriminate H.
    + intros key [H _]. discriminate H.
Defined.

(** ** The prompt loader *)

Section PromptLoaderFacts.
Variable prompts_json : nat -> completion (gmap jsstring PromptData).

(** Once the static field is set, [load] answers from it. *)
Lemma PromptLoader_load_cached (w : World) (catalog : gmap jsstring PromptData) :
  PromptLoader_prompts w = Some catalog ->
  PromptLoader_load prompts_json w = (Return catalog, w).
Proof. intros H. unfold PromptLoader_load. rewrite H. reflexivity. Qed.

(** The first successful load reads the file once and fills the field. *)
Lemma PromptLoader_load_first (w : World) (catalog : gmap jsstring PromptData) :
  PromptLoader_prompts w = None ->
  prompts_json (file_reads w) = Return catalog ->
  exists w',
    PromptLoader_load prompts_json w = (Return catalog, w') /\
    PromptLoader_prompts w' = Some catalog /\
    file_reads w' = S (file_reads w) /\
    requests w' = requests w.
Proof.
  intros H1 H2. unfold PromptLoader_load. rewrite H1, H2.
  eexists. split; [ reflexivity |]. repeat split.
Qed.

(** A failed load throws and leaves the field empty. *)
Lemma PromptLoader_load_failure (w : World) (e : exception) :
  PromptLoader_prompts w = None ->
  prompts_json (file_reads w) = Throw e ->
  exists w',
    PromptLoader_load prompts_json w = (Throw e, w') /\
    PromptLoader_prompts w' = None.
Proof.
  intros H1 H2. unfold PromptLoader_load. rewrite H1, H2.
  eexists. split; reflexivity.
Qed.

Lemma PromptLoader_get_cached (w : World) (catalog : gmap jsstring PromptData)
    (key : jsstring) :
  PromptLoader_prompts w = Some catalog ->
  PromptLoader_get prompts_json key w =
    (Return match Get catalog key with
            | Own d => data d
            | Inherited name => inherited_member name
            | Undefined => null
            end, w).
Proof.
  intros H. unfold PromptLoader_get, bind.
  rewrite (PromptLoader_load_cached w catalog H). reflexivity.
Qed.

(** After the load, any run of [get] calls leaves the world as it is:
    the file is not read again and the catalog stays the same. *)
Lemma PromptLoader_gets_cached (keys : list jsstring) (w : World)
    (catalog : gmap jsstring PromptData) :
  PromptLoader_prompts w = Some catalog ->
  fold_left (fun w' key => snd (PromptLoader_get prompts_json key w')) keys w = w.
Proof.
  intros H. induction keys as [| key keys IH]; simpl; [ reflexivity |].
  rewrite (PromptLoader_get_cached w catalog key H). exact IH.
Qed.

(** A name that is neither in the catalog nor inherited gives null. *)
Lemma PromptLoader_get_unknown (w : World) (catalog : gmap jsstring PromptData)
    (key : jsstring) :
  PromptLoader_prompts w = Some catalog ->
  catalog !! key = None ->
  key ∉ Object_prototype_names ->
  PromptLoader_get prompts_json key w = (Return null, w).
Proof.
  intros H Hk Hn. rewrite (PromptLoader_get_cached w catalog key H).
  rewrite (Get_not_inherited _ _ Hn), Hk. reflexivity.
Qed.

(** A name that objects inherit and the catalog does not define gives
    the inherited member, and not null. *)
Lemma PromptLoader_get_inherited (w : World) (catalog : gmap jsstring PromptData)
    (key : jsstring) :
  PromptLoader_prompts w = Some catalog ->
  catalog !! key = None ->
  key ∈ Object_prototype_names ->
  PromptLoader_get prompts_json key w = (Return (inherited_member key), w).
Proof.
  intros H Hk Hn. rewrite (PromptLoader_get_cached w catalog key H).
  unfold Get. rewrite Hk, bool_decide_eq_true_2; [ reflexivity | exact Hn ].
Qed.
End PromptLoaderFacts.

(** C7 at a name that the catalog lacks and every object inherits: [get]
    hands back the inherited constructor where null was promised, on the
    first call (which loads the catalog) and on the cached one alike. *)
Theorem PromptLoader_get_constructor :
  example_prompts !! js "constructor" = None /\
  (exists w',
     PromptLoader_get (fun _ => Return example_prompts) (js "constructor")
       (world_with None None)
     = (Return (inherited_member (js "constructor")), w') /\
     PromptLoader_get (fun _ => Return example_prompts) (js "constructor") w'
     = (Return (inherited_member (js "constructor")), w')).
Proof.
  split; [ vm_compute; reflexivity |].
  eexists. split; vm_compute; reflexivity.
Qed.

(** ** The matcher on the constructs of the patterns *)

Section MatcherFacts.
Context {R : Type}.
Implicit Types (k : @Continuation R) (s : jsstring) (cap : option jsstring).

Lemma matcher_Lit ignoreCase pat s cap k :
  matcher (Lit ignoreCase pat) s cap k =
    if starts_with_pattern ignoreCase pat s then k (drop (length pat) s) cap
    else None.
Proof.
  revert s. induction pat as [| p pat IH]; intros s; simpl; [ reflexivity |].
  destruct s as [| c s]; [ reflexivity |].
  destruct (Canonicalize ignoreCase c =? Canonicalize ignoreCase p); simpl;
    [ apply IH | reflexivity ].
Qed.

Section OverCharSet.
Variable p : N -> bool.
Variable m1 : jsstring -> option jsstring -> @Continuation R -> option R.
Hypothesis m1_CharSet : forall s cap k,
  m1 s cap k = match s with
               | c :: s' => if p c then k s' cap else None
               | [] => None
               end.

(** [p*], greedy *)
Lemma RepeatMatcher_greedy_star k cap (fuel : nat) s :
  (length s < fuel)%nat ->
  RepeatMatcher m1 fuel 0 None true s cap k =
    greedy_run p (fun s' => k s' cap) s.
Proof.
  revert s. induction fuel as [| fuel IH]; intros s Hf; [ lia |].
  simpl. rewrite m1_CharSet.
  destruct s as [| c s]; simpl; [ reflexivity |].
  destruct (p c); [| reflexivity ].
  replace (Nat.eqb (length s) (S (length s))) with false
    by (symmetry; apply Nat.eqb_neq; lia).
  rewrite IH by (simpl in Hf; lia). reflexivity.
Qed.

(** [p*?], lazy *)
Lemma RepeatMatcher_lazy_star k cap (fuel : nat) s :
  (length s < fuel)%nat ->
  RepeatMatcher m1 fuel 0 None false s cap k =
    lazy_run p (fun s' => k s' cap) s.
Proof.
  revert s. induction fuel as [| fuel IH]; intros s Hf; [ lia |].
  simpl. rewrite m1_CharSet.
  destruct s as [| c s]; simpl.
  - destruct (k [] cap); reflexivity.
  - destruct (k (c :: s) cap); [ reflexivity |].
    destruct (p c); [| reflexivity ].
    replace (Nat.eqb (length s) (S (length s))) with false
      by (symmetry; apply Nat.eqb_neq; lia).
    apply IH. simpl in Hf; lia.
Qed.

(** [p+] and [p+?]: one mandatory code unit, then the star. *)
Lemma RepeatMatcher_plus (greedy : bool) k cap (fuel : nat) s :
  (length s < fuel)%nat ->
  RepeatMatcher m1 (S fuel) 1 None greedy s cap k =
    match s with
    | c :: s' =>
        if p c then
          if greedy then greedy_run p (fun s'' => k s'' cap) s'
          else lazy_run p (fun s'' => k s'' cap) s'
        else None
    | [] => None
    end.
Proof.
  intros Hf. simpl. rewrite m1_CharSet.
  destruct s as [| c s]; [ reflexivity |].
  destruct (p c); [| reflexivity ].
  simpl in Hf. destruct greedy.
  - apply RepeatMatcher_greedy_star. lia.
  - apply RepeatMatcher_lazy_star. lia.
Qed.

(** [p{n}] *)
Lemma RepeatMatcher_exactly (greedy : bool) k cap (n fuel : nat) s :
  (n < fuel)%nat ->
  RepeatMatcher m1 fuel n (Some n) greedy s cap k =
    if Nat.leb n (length s) && forallb p (take n s) then k (drop n s) cap
    else None.
Proof.
  revert fuel s. induction n as [| n IH]; intros fuel s Hf;
    (destruct fuel as [| fuel]; [ lia |]).
  - simpl. rewrite drop_0. reflexivity.
  - simpl. rewrite m1_CharSet.
    destruct s as [| c s]; simpl; [ reflexivity |].
    destruct (p c); simpl; [| rewrite andb_false_r; reflexivity ].
    apply IH. lia.
Qed.

(** [p?], greedy *)
Lemma RepeatMatcher_optional k cap (fuel : nat) s :
  (length s < fuel)%nat ->
  RepeatMatcher m1 fuel 0 (Some 1%nat) true s cap k =
    match s with
    | c :: s' =>
        if p c then
          match k s' cap with Some x => Some x | None => k s cap end
        else k s cap
    | [] => k [] cap
    end.
Proof.
  intros Hf. destruct fuel as [| fuel]; [ lia |].
  simpl. rewrite m1_CharSet.
  destruct s as [| c s]; [ reflexivity |].
  destruct (p c); [| reflexivity ].
  replace (Nat.eqb (length s) (length (c :: s))) with false
    by (symmetry; apply Nat.eqb_neq; simpl; lia).
  simpl in Hf. destruct fuel as [| fuel]; [ lia |]. reflexivity.
Qed.
End OverCharSet.

Lemma matcher_CharSet (p : N -> bool) s cap k :
  matcher (CharSet p) s cap k =
    match s with
    | c :: s' => if p c then k s' cap else None
    | [] => None
    end.
Proof. reflexivity. Qed.

Lemma matcher_Quant (min : nat) (max : option nat) (greedy : bool) (r : regex) s cap k :
  matcher (Quant min max greedy r) s cap k =
    RepeatMatcher (matcher r) (S (min + length s)) min max greedy s cap k.
Proof. reflexivity. Qed.

Lemma matcher_Seq (r1 r2 : regex) s cap k :
  matcher (Seq r1 r2) s cap k =
    matcher r1 s cap (fun s' cap' => matcher r2 s' cap' k).
Proof. reflexivity. Qed.

Lemma matcher_Group (r : regex) s cap k :
  matcher (Group r) s cap k =
    matcher r s cap (fun s' _ => k s' (Some (take (length s - length s') s))).
Proof. reflexivity. Qed.

Lemma matcher_star (p : N -> bool) k cap s :
  matcher (Quant 0 None true (CharSet p)) s cap k =
    greedy_run p (fun s' => k s' cap) s.
Proof.
  rewrite matcher_Quant.
  apply (RepeatMatcher_greedy_star p _ (matcher_CharSet p)). lia.
Qed.

Lemma matcher_plus (p : N -> bool) (greedy : bool) k cap s :
  matcher (Quant 1 None greedy (CharSet p)) s cap k =
    match s with
    | c :: s' =>
        if p c then
          if greedy then greedy_run p (fun s'' => k s'' cap) s'
          else lazy_run p (fun s'' => k s'' cap) s'
        else None
    | [] => None
    end.
Proof.
  rewrite matcher_Quant.
  apply (RepeatMatcher_plus p _ (matcher_CharSet p)). lia.
Qed.

Lemma matcher_exactly (p : N -> bool) (greedy : bool) k cap (n : nat) s :
  matcher (Quant n (Some n) greedy (CharSet p)) s cap k =
    if Nat.leb n (length s) && forallb p (take n s) then k (drop n s) cap
    else None.
Proof.
  rewrite matcher_Quant.
  apply (RepeatMatcher_exactly p _ (matcher_CharSet p)). lia.
Qed.

Lemma matcher_optional (p : N -> bool) k cap s :
  matcher (Quant 0 (Some 1%nat) true (CharSet p)) s cap k =
    match s with
    | c :: s' =>
        if p c then
          match k s' cap with Some x => Some x | None => k s cap end
        else k s cap
    | [] => k [] cap
    end.
Proof.
  rewrite matcher_Quant.
  apply (RepeatMatcher_optional p _ (matcher_CharSet p)). lia.
Qed.
End MatcherFacts.

(** The runs only look at what the continuation answers. *)
Lemma lazy_run_ext {R : Type} (p : N -> bool) (k1 k2 : jsstring -> option R) (s : jsstring) :
  (forall t, k1 t = k2 t) -> lazy_run p k1 s = lazy_run p k2 s.
Proof.
  intros H. induction s as [| c s IH]; cbn [lazy_run]; rewrite H.
  - reflexivity.
  - rewrite IH. reflexivity.
Qed.

Lemma greedy_run_ext {R : Type} (p : N -> bool) (k1 k2 : jsstring -> option R) (s : jsstring) :
  (forall t, k1 t = k2 t) -> greedy_run p k1 s = greedy_run p k2 s.
Proof.
  intros H. induction s as [| c s IH]; cbn [greedy_run]; rewrite H.
  - reflexivity.
  - rewrite IH. reflexivity.
Qed.

(** ** Replacement *)

Lemma GetSubstitution_dollar_free (before matched after value : jsstring) :
  dollar_free value = true ->
  GetSubstitution before matched after value = value.
Proof.
  unfold dollar_free. induction value as [| c value IH]; simpl; [ reflexivity |].
  intros H. apply andb_prop in H as [Hc Hv].
  destruct (c =? 36); [ discriminate |].
  rewrite (IH Hv). reflexivity.
Qed.

Lemma String_replace_dollar_free (placeholder value s : jsstring) :
  dollar_free value = true ->
  String_replace placeholder value s = substitute_first placeholder value s.
Proof.
  intros H. unfold String_replace, substitute_first.
  destruct (indexOf placeholder s); [| reflexivity ].
  rewrite (GetSubstitution_dollar_free _ _ _ _ H). reflexivity.
Qed.

Lemma starts_with_pattern_exact (pat s : jsstring) :
  starts_with_pattern false pat s = starts_with pat s.
Proof.
  revert s. induction pat as [| p pat IH]; intros [| c s]; simpl; try reflexivity.
  rewrite IH, (N.eqb_sym c p). reflexivity.
Qed.

Lemma starts_with_length (pat s : jsstring) :
  starts_with pat s = true -> (length pat <= length s)%nat.
Proof.
  revert s. induction pat as [| p pat IH]; intros [| c s]; simpl;
    try lia; try discriminate.
  intros H. apply andb_prop in H as [_ H]. apply IH in H. lia.
Qed.

(** A literal pattern matches where the string starts with it. *)
Lemma match_here_Lit (pat s : jsstring) :
  match_here (Lit false pat) s =
    if starts_with pat s then Some (length pat, None) else None.
Proof.
  unfold match_here. rewrite matcher_Lit, starts_with_pattern_exact.
  destruct (starts_with pat s) eqn:E; [| reflexivity ].
  apply starts_with_length in E.
  rewrite length_drop. do 2 f_equal. lia.
Qed.

Lemma replace_scan_Lit (pat value : jsstring) :
  pat <> [] -> dollar_free value = true ->
  forall (s before : jsstring) (inside : nat),
    replace_scan (fun t => fst <$> match_here (Lit false pat) t) value before s inside
    = substitute_every pat value s inside.
Proof.
  intros Hp Hv. induction s as [| c s IH]; intros before inside.
  - destruct inside; simpl; [| reflexivity ].
    rewrite match_here_Lit. destruct pat; [ congruence | reflexivity ].
  - destruct inside as [| n]; [| simpl; apply IH ].
    cbn [replace_scan substitute_every]. rewrite match_here_Lit.
    destruct (starts_with pat (c :: s)) eqn:E; cbn [fmap option_fmap option_map fst].
    + rewrite (GetSubstitution_dollar_free _ _ _ _ Hv).
      destruct pat as [| p pat]; [ congruence |].
      cbn [length Nat.sub]. rewrite ?Nat.sub_0_r, IH. reflexivity.
    + rewrite IH. reflexivity.
Qed.

(** On a value without dollar signs, the replacement of every match of a
    literal pattern is the substitution of every occurrence. *)
Lemma RegExp_replace_all_Lit (pat value s : jsstring) :
  pat <> [] -> dollar_free value = true ->
  RegExp_replace_all (Lit false pat) value s = substitute_every pat value s 0.
Proof. intros Hp Hv. apply replace_scan_Lit; assumption. Qed.

Lemma dollar_free_enum_values (language : Languages) (length : SummaryLength)
    (style : SummaryStyle) :
  dollar_free (Languages_value language) = true /\
  dollar_free (lengthMap length) = true /\
  dollar_free (SummaryStyle_value style) = true.
Proof. destruct language, length, style; repeat split; reflexivity. Qed.

(** ** translate: the prompt *)

(** C2, as the code has it: for values without dollar signs the prompt is
    the result of three substitutions made one after the other, each on
    the result of the one before: every {targetLanguage} of the template,
    then the first {text} of what that gave, then every {fromLanguage} of
    what that gave, the text just put in included; the source language
    value is the empty string when fromLanguage is not supplied. *)
Theorem translate_prompt_sequential
    (template text target : jsstring) (fromLanguage : option jsstring) :
  dollar_free target = true ->
  dollar_free text = true ->
  dollar_free (fromLangStr_of fromLanguage) = true ->
  fromLangStr_of None = [] /\
  (forall f, f <> [] -> fromLangStr_of (Some f) = f) /\
  translate_prompt template text target fromLanguage =
    substitute_every (js "{fromLanguage}") (fromLangStr_of fromLanguage)
      (substitute_first (js "{text}") text
         (substitute_every (js "{targetLanguage}") target template 0)) 0.
Proof.
  intros Ht Hx Hf. split; [ reflexivity |]. split.
  - intros [| c f] Hne; [ congruence | reflexivity ].
  - unfold translate_prompt, re_fromLanguage, re_targetLanguage.
    rewrite (RegExp_replace_all_Lit (js "{fromLanguage}") _ _ ltac:(discriminate) Hf).
    rewrite (String_replace_dollar_free _ _ _ Hx).
    rewrite (RegExp_replace_all_Lit (js "{targetLanguage}") _ _ ltac:(discriminate) Ht).
    reflexivity.
Qed.

Lemma translate_prompt_sequential_witness :
  translate_prompt (js "From {fromLanguage} to {targetLanguage}: {text} ({targetLanguage})")
    (js "hello") (js "fr") (Some (js "en"))
  = js "From en to fr: hello (fr)".
Proof.
  rewrite (proj2 (proj2 (translate_prompt_sequential
             (js "From {fromLanguage} to {targetLanguage}: {text} ({targetLanguage})")
             (js "hello") (js "fr") (Some (js "en"))
             eq_refl eq_refl eq_refl))).
  vm_compute. reflexivity.
Defined.

(** C2 as stated fails: with the template "Say in {targetLanguage}: {text}"
    and the cleaned input "what is {fromLanguage}?" (no source language
    given) the template filled in as C2 says keeps the input as it
    is, and the prompt the code builds does not. *)
Lemma translate_prompt_not_template_filled :
  fill_template (js "Say in {targetLanguage}: {text}")
    (js "fr") (fromLangStr_of None) (js "what is {fromLanguage}?") false 0
  = js "Say in fr: what is {fromLanguage}?" /\
  translate_prompt (js "Say in {targetLanguage}: {text}")
    (js "what is {fromLanguage}?") (js "fr") None
  = js "Say in fr: what is ?" /\
  translate_prompt (js "Say in {targetLanguage}: {text}")
    (js "what is {fromLanguage}?") (js "fr") None
  <> fill_template (js "Say in {targetLanguage}: {text}")
       (js "fr") (fromLangStr_of None) (js "what is {fromLanguage}?") false 0.
Proof.
  split; [ vm_compute; reflexivity |]. split; [ vm_compute; reflexivity |].
  vm_compute. discriminate.
Qed.

(** ** summarize *)

(** For a text without dollar signs the prompt is what the
    specification describes. *)
Lemma summarize_prompt_dollar_free (template text : jsstring)
    (language : Languages) (length : SummaryLength) (style : SummaryStyle) :
  dollar_free text = true ->
  summarize_prompt template text language length style =
    summarize_prompt_as_specified template text language length style.
Proof.
  intros Hx. unfold summarize_prompt, summarize_prompt_as_specified.
  destruct (dollar_free_enum_values language length style) as (Hl & Hn & Hs).
  rewrite (String_replace_dollar_free _ _ _ Hx).
  rewrite (String_replace_dollar_free _ _ _ Hs).
  rewrite (String_replace_dollar_free _ _ _ Hn).
  rewrite (String_replace_dollar_free _ _ _ Hl).
  reflexivity.
Qed.

(** Without a "summarize" template the call throws the configuration
    error and sends nothing. *)
Lemma summarize_template_missing
    (remote : GenerativeModel -> list jsstring -> jsstring -> completion jsstring)
    (prompts_json : nat -> completion (gmap jsstring PromptData))
    (self : KaruAssistant) (text : jsstring) (language : option Languages)
    (options : SummaryOptions) (w : World) (catalog : gmap jsstring PromptData) :
  PromptLoader_prompts w = Some catalog ->
  catalog !! js "summarize" = None ->
  summarize prompts_json remote self text language options w
  = (Throw (Error (js "Summarize prompt template not found")), w).
Proof.
  intros Hw Hc. unfold summarize, bind.
  rewrite (PromptLoader_get_unknown prompts_json w catalog _ Hw Hc).
  - reflexivity.
  - intros Hin. apply list_elem_of_In in Hin. simpl in Hin.
    repeat (destruct Hin as [Hin | Hin]; [ discriminate Hin |]). exact Hin.
Qed.

(** Where the specification puts the input text into the prompt, the
    code puts what [replace] makes of it: every pair of dollar signs is
    turned into one. *)
Lemma summarize_prompt_dollar_signs :
  summarize_prompt_as_specified (js "Summarize in {language}, {length}: {text}")
    (js "Einstein wrote $$E=mc^2$$.") EN SHORT PROFESSIONAL
  = js "Summarize in en, 2-3 sentences: Einstein wrote $$E=mc^2$$." /\
  summarize_prompt (js "Summarize in {language}, {length}: {text}")
    (js "Einstein wrote $$E=mc^2$$.") EN SHORT PROFESSIONAL
  = js "Summarize in en, 2-3 sentences: Einstein wrote $E=mc^2$." /\
  requests (snd (summarize example_disk (answers (js "ok")) example_assistant
                   (js "Einstein wrote $$E=mc^2$$.") None
                   {| length_option := Some SHORT; style_option := None |}
                   (world_with None None)))
  = [js "Summarize in en, 2-3 sentences, professional style: Einstein wrote $E=mc^2$."].
Proof. repeat split; vm_compute; reflexivity. Qed.

(** *** What a replacement leaves in place *)

Lemma starts_with_app (p r : jsstring) : starts_with p (p ++ r) = true.
Proof.
  induction p as [| c p IH]; simpl; [ reflexivity |].
  rewrite N.eqb_refl, IH. reflexivity.
Qed.

Lemma starts_with_split (p s : jsstring) :
  starts_with p s = true -> s = p ++ drop (length p) s.
Proof.
  revert s. induction p as [| c p IH]; intros [| x s]; simpl;
    try reflexivity; try discriminate.
  intros H. apply andb_prop in H as [Hc H].
  apply N.eqb_eq in Hc. subst x. rewrite <- (IH s H). reflexivity.
Qed.

Lemma indexOf_split (pat t : jsstring) (i : nat) :
  indexOf pat t = Some i ->
  t = take i t ++ pat ++ drop (i + length pat) t.
Proof.
  revert i. induction t as [| c t IH]; intros i; cbn [indexOf].
  - destruct (starts_with pat []) eqn:E; [| discriminate ].
    intros Hi. injection Hi as <-. exact (starts_with_split pat [] E).
  - destruct (starts_with pat (c :: t)) eqn:E.
    + intros Hi. injection Hi as <-. exact (starts_with_split pat (c :: t) E).
    + destruct (indexOf pat t) as [j |]; [| discriminate ].
      intros Hi. injection Hi as <-. cbn [take drop Nat.add app].
      rewrite <- (IH j eq_refl). reflexivity.
Qed.

Lemma includes_intro (q a b : jsstring) : includes q (a ++ q ++ b) = true.
Proof.
  unfold includes. induction a as [| c a IH]; cbn [app].
  - destruct (q ++ b) eqn:E; cbn [indexOf]; rewrite <- ?E, starts_with_app; reflexivity.
  - cbn [indexOf]. destruct (starts_with q (c :: a ++ q ++ b)); [ reflexivity |].
    destruct (indexOf q (a ++ q ++ b)); [ reflexivity | discriminate IH ].
Qed.

Lemma includes_elim (q t : jsstring) :
  includes q t = true -> exists a b, t = a ++ q ++ b.
Proof.
  unfold includes. destruct (indexOf q t) as [i |] eqn:E; [| discriminate ].
  intros _. eexists _, _. exact (indexOf_split q t i E).
Qed.

Lemma never_begins_inside_spec (a b l l' r : jsstring) :
  never_begins_inside a b = true ->
  a = l ++ l' -> l' <> [] ->
  b <> l' ++ r /\ l' <> b ++ r.
Proof.
  unfold never_begins_inside. intros H -> Hne.
  rewrite forallb_forall in H.
  specialize (H (length l)).
  rewrite drop_app_length in H.
  assert (Hin : In (length l) (seq 0 (length (l ++ l')))).
  { apply in_seq. rewrite length_app. destruct l'; [ congruence | simpl; lia ]. }
  apply H in Hin. apply andb_prop in Hin as [H1 H2].
  apply negb_true_iff in H1, H2.
  split; intros E; subst; rewrite starts_with_app in *; discriminate.
Qed.

(** A replacement of the first occurrence of [pat] leaves an occurrence of
    [q] in place when the two never overlap, whatever is put in. *)
Lemma includes_String_replace (pat value q t : jsstring) :
  apart pat q = true ->
  includes q t = true ->
  includes q (String_replace pat value t) = true.
Proof.
  intros Hap Hq. apply andb_prop in Hap as [Hpq Hqp].
  unfold String_replace.
  destruct (indexOf pat t) as [i |] eqn:Ei; [| exact Hq ].
  pose proof (indexOf_split pat t i Ei) as Hp.
  destruct (includes_elim q t Hq) as (a & b & Ht).
  set (X := GetSubstitution (take i t) pat (drop (i + length pat) t) value).
  clearbody X.
  remember (take i t) as c eqn:Hc. remember (drop (i + length pat) t) as d eqn:Hd.
  clear Hc Hd Ei Hq. rewrite Ht in Hp. clear Ht t.
  apply app_eq_app in Hp as [l [[Ha Hp] | [Hc Hp]]].
  - (* the occurrence of [pat] begins first *)
    apply app_eq_app in Hp as [l2 [[Hpat Hp] | [Hl Hd]]].
    + destruct l2 as [| x l2].
      * simpl in Hp. rewrite <- Hp, app_assoc. apply includes_intro.
      * exfalso. apply app_eq_app in Hp as [l3 [[Hq _] | [Hl2 _]]].
        -- exact (proj1 (never_begins_inside_spec pat q l (x :: l2) l3 Hpq Hpat
                           ltac:(discriminate)) Hq).
        -- exact (proj2 (never_begins_inside_spec pat q l (x :: l2) l3 Hpq Hpat
                           ltac:(discriminate)) Hl2).
    + rewrite Hd, (app_assoc X), (app_assoc c). apply includes_intro.
  - (* the occurrence of [q] begins first *)
    apply app_eq_app in Hp as [l2 [[Hq Hp] | [Hl Hb]]].
    + destruct l2 as [| x l2].
      * rewrite app_nil_r in Hq. subst l c. rewrite <- !app_assoc.
        apply includes_intro.
      * exfalso. apply app_eq_app in Hp as [l3 [[Hpat _] | [Hl2 _]]].
        -- exact (proj1 (never_begins_inside_spec q pat l (x :: l2) l3 Hqp Hq
                           ltac:(discriminate)) Hpat).
        -- exact (proj2 (never_begins_inside_spec q pat l (x :: l2) l3 Hqp Hq
                           ltac:(discriminate)) Hl2).
    + subst l c. rewrite <- !app_assoc. apply includes_intro.
Qed.

(** C6, as the code has it: for a text without dollar signs the prompt
    is the template with, one after the other and each at its first
    occurrence only, {language} replaced by the language code, {length}
    by the phrase for the length (SHORT "2-3 sentences", MEDIUM "1-2
    paragraphs", LONG "3-4 paragraphs"), {style} by the style and {text}
    by the input text; when the template holds {length}, the prompt for
    SHORT contains "2-3 sentences", whatever the text; that prompt is the
    one request made; without a "summarize" template the call raises the
    configuration error and makes no request. *)
Theorem summarize_prompt_built
    (prompts_json : nat -> completion (gmap jsstring PromptData))
    (remote : GenerativeModel -> list jsstring -> jsstring -> completion jsstring)
    (self : KaruAssistant) (text : jsstring) (language : Languages)
    (length : SummaryLength) (style : SummaryStyle)
    (w : World) (catalog : gmap jsstring PromptData) :
  PromptLoader_prompts w = Some catalog ->
  (forall d, catalog !! js "summarize" = Some d -> template d <> [] ->
     requests (snd (summarize prompts_json remote self text (Some language)
                      {| length_option := Some length; style_option := Some style |} w))
     = requests w ++ [summarize_prompt (template d) text language length style] /\
     (dollar_free text = true ->
      summarize_prompt (template d) text language length style
      = summarize_prompt_as_specified (template d) text language length style) /\
     (includes (js "{length}") (template d) = true ->
      includes (js "2-3 sentences")
        (summarize_prompt (template d) text language SHORT style) = true)) /\
  (catalog !! js "summarize" = None ->
   summarize prompts_json remote self text (Some language)
     {| length_option := Some length; style_option := Some style |} w
   = (Throw (Error (js "Summarize prompt template not found")), w)) /\
  lengthMap SHORT = js "2-3 sentences" /\
  lengthMap MEDIUM = js "1-2 paragraphs" /\
  lengthMap LONG = js "3-4 paragraphs".
Proof.
  intros Hw. split; [| split; [| repeat split ]].
  - intros d Hd Ht. split; [| split ].
    + unfold summarize, bind.
      rewrite (PromptLoader_get_cached prompts_json w catalog _ Hw).
      unfold Get. rewrite Hd. cbn [template_of default].
      rewrite (truthy_Some _ Ht). unfold generateContent.
      destruct (remote (model self) (requests w) _); reflexivity.
    + apply summarize_prompt_dollar_free.
    + intros Hl. unfold summarize_prompt.
      apply (includes_String_replace (js "{text}")); [ vm_compute; reflexivity |].
      apply (includes_String_replace (js "{style}")); [ vm_compute; reflexivity |].
      assert (H1 : includes (js "{length}")
                     (String_replace (js "{language}") (Languages_value language)
                        (template d)) = true)
        by (apply includes_String_replace; [ vm_compute; reflexivity | exact Hl ]).
      unfold String_replace at 1. unfold includes in H1.
      destruct (indexOf (js "{length}") _) as [i |]; [| discriminate H1 ].
      rewrite GetSubstitution_dollar_free by reflexivity.
      apply includes_intro.
  - apply summarize_template_missing with (catalog := catalog); assumption.
Qed.

Lemma summarize_prompt_built_witness :
  requests (snd (summarize example_disk (answers (js "ok")) example_assistant
                   (js "Some text.") (Some FR)
                   {| length_option := Some SHORT; style_option := Some CASUAL |}
                   loaded_world))
  = [js "Summarize in fr, 2-3 sentences, casual style: Some text."] /\
  includes (js "2-3 sentences")
    (summarize_prompt (js "Summarize in {language}, {length}, {style} style: {text}")
       (js "Some text.") FR SHORT CASUAL) = true.
Proof.
  destruct (proj1 (summarize_prompt_built example_disk (answers (js "ok"))
                     example_assistant (js "Some text.") FR SHORT CASUAL
                     loaded_world example_prompts eq_refl)
              {| description := js "Summarize a text";
                 template := js "Summarize in {language}, {length}, {style} style: {text}" |}
              ltac:(vm_compute; reflexivity) ltac:(discriminate))
    as (Hreq & Hspec & Hshort).
  split.
  - rewrite Hreq. vm_compute. reflexivity.
  - apply Hshort. vm_compute. reflexivity.
Defined.

(** C6 as stated fails: with the template "Summarize: {text}" the prompt
    for SHORT does not contain "2-3 sentences"; and for the text "Einstein
    wrote $$E=mc^2$$." what stands in the prompt is not that text. *)
Lemma summarize_prompt_not_as_stated :
  summarize_prompt (js "Summarize: {text}") (js "Einstein wrote $$E=mc^2$$.")
    EN SHORT PROFESSIONAL
  = js "Summarize: Einstein wrote $E=mc^2$." /\
  includes (js "2-3 sentences")
    (summarize_prompt (js "Summarize: {text}") (js "Einstein wrote $$E=mc^2$$.")
       EN SHORT PROFESSIONAL) = false /\
  summarize_prompt (js "Summarize: {text}") (js "Einstein wrote $$E=mc^2$$.")
    EN SHORT PROFESSIONAL
  <> summarize_prompt_as_specified (js "Summarize: {text}")
       (js "Einstein wrote $$E=mc^2$$.") EN SHORT PROFESSIONAL.
Proof.
  split; [ vm_compute; reflexivity |]. split; [ vm_compute; reflexivity |].
  vm_compute. discriminate.
Qed.

(** ** translate: the text is read again *)

Lemma substitute_every_skip (pat value before s : jsstring) :
  forallb (fun c => negb (c =? hd 0 pat)) before = true ->
  pat <> [] ->
  substitute_every pat value (before ++ s) 0 = before ++ substitute_every pat value s 0.
Proof.
  intros Hb Hp. induction before as [| c before IH]; [ reflexivity |].
  simpl in Hb. apply andb_prop in Hb as [Hc Hb].
  destruct pat as [| p pat]; [ congruence |]. simpl in Hc.
  cbn [app substitute_every starts_with].
  rewrite (N.eqb_sym p c).
  destruct (c =? p); [ discriminate |].
  simpl. rewrite (IH Hb). reflexivity.
Qed.

Lemma indexOf_skip (pat before : jsstring) :
  forallb (fun c => negb (c =? hd 0 pat)) before = true ->
  pat <> [] ->
  indexOf pat (before ++ pat) = Some (length before).
Proof.
  intros Hb Hp. induction before as [| c before IH].
  - simpl. destruct pat as [| p pat]; [ congruence |].
    assert (H : forall l, starts_with l l = true).
    { induction l as [| x l IHl]; simpl; [ reflexivity |].
      rewrite N.eqb_refl. exact IHl. }
    simpl. rewrite N.eqb_refl, H. reflexivity.
  - simpl in Hb. apply andb_prop in Hb as [Hc Hb].
    destruct pat as [| p pat]; [ congruence |]. simpl in Hc.
    cbn [app indexOf starts_with]. rewrite (N.eqb_sym p c).
    destruct (c =? p); [ discriminate |].
    simpl. rewrite (IH Hb). reflexivity.
Qed.

(** C9: the {text} substitution comes before the {fromLanguage} one.  For
    a template that ends in {text} after instructions without braces, the
    prompt is the instructions followed by the cleaned input in which
    every {fromLanguage} has been replaced by the source language value
    (the empty string when none is supplied); so there is an input, "keep
    {fromLanguage} here", that the prompt does not contain as it was
    given. *)
Theorem translate_text_rescanned
    (instructions text target : jsstring) (fromLanguage : option jsstring) :
  forallb (fun c => negb (c =? 123)) instructions = true ->
  dollar_free target = true ->
  dollar_free text = true ->
  dollar_free (fromLangStr_of fromLanguage) = true ->
  translate_prompt (instructions ++ js "{text}") text target fromLanguage
  = instructions ++
    substitute_every (js "{fromLanguage}") (fromLangStr_of fromLanguage) text 0 /\
  exists input : jsstring,
    includes (js "{fromLanguage}") input = true /\
    translate_prompt (js "Translate: {text}") input (js "fr") None
    = js "Translate: keep  here" /\
    includes input (translate_prompt (js "Translate: {text}") input (js "fr") None)
    = false.
Proof.
  intros Hi Ht Hx Hf. split.
  - unfold translate_prompt, re_fromLanguage, re_targetLanguage.
    rewrite (RegExp_replace_all_Lit (js "{fromLanguage}") _ _ ltac:(discriminate) Hf).
    rewrite (String_replace_dollar_free _ _ _ Hx).
    rewrite (RegExp_replace_all_Lit (js "{targetLanguage}") _ _ ltac:(discriminate) Ht).
    rewrite (substitute_every_skip (js "{targetLanguage}") target instructions
               (js "{text}") Hi ltac:(discriminate)).
    replace (substitute_every (js "{targetLanguage}") target (js "{text}") 0)
      with (js "{text}") by reflexivity.
    unfold substitute_first.
    rewrite (indexOf_skip (js "{text}") instructions Hi ltac:(discriminate)).
    rewrite take_app_length, drop_app_add, drop_all, app_nil_r.
    apply (substitute_every_skip (js "{fromLanguage}") _ instructions text Hi).
    discriminate.
  - exists (js "keep {fromLanguage} here").
    repeat split; vm_compute; reflexivity.
Qed.

Lemma translate_text_rescanned_witness :
  translate_prompt (js "Translate: " ++ js "{text}") (js "keep {fromLanguage} here")
    (js "fr") (Some (js "en"))
  = js "Translate: keep en here".
Proof.
  rewrite (proj1 (translate_text_rescanned (js "Translate: ")
                    (js "keep {fromLanguage} here") (js "fr") (Some (js "en"))
                    eq_refl eq_refl eq_refl eq_refl)).
  vm_compute. reflexivity.
Defined.

(** ** translate: the cleaning of the input *)

Lemma name_rest_length_bound (u : jsstring) (n : nat) :
  name_rest_length u = Some n -> (n + 20 <= length u)%nat.
Proof.
  revert n. induction u as [| c u IH]; intros n; cbn [name_rest_length].
  - unfold id_suffix. discriminate.
  - destruct (id_suffix (c :: u)) eqn:E.
    + intros Hn. injection Hn as <-. unfold id_suffix in E.
      apply andb_prop in E as [E Hd]. apply andb_prop in E as [_ E].
      apply andb_prop in E as [Hl _]. apply Nat.leb_le in Hl.
      destruct (drop 18 u) as [| d y] eqn:Ed; [ discriminate |].
      assert (length (drop 18 u) = S (length y)) by (rewrite Ed; reflexivity).
      rewrite length_drop in H. simpl. lia.
    + destruct (isLineTerminator c); [ discriminate |].
      destruct (name_rest_length u) as [m |]; [| discriminate ].
      intros Hn. injection Hn as <-. specialize (IH m eq_refl). simpl. lia.
Qed.

(** [:\d{18}>] *)
Lemma matcher_id_suffix (L : nat) (u : jsstring) (cap : option jsstring) :
  matcher (Seq (Char false 58) (Seq (Quant 18 (Some 18%nat) true ClassDigit) (Char false 62)))
    u cap (fun y c => Some ((L - length y)%nat, c))
  = if id_suffix u then Some ((L - (length u - 20))%nat, cap) else None.
Proof.
  rewrite matcher_Seq. unfold Char at 1. rewrite matcher_CharSet. unfold id_suffix.
  destruct u as [| c v]; [ reflexivity |]. unfold Canonicalize.
  destruct (c =? 58); [| reflexivity ]. cbv beta.
  rewrite matcher_Seq. unfold ClassDigit. rewrite matcher_exactly.
  destruct (Nat.leb 18 (length v) && forallb isDigit (take 18 v)); [| reflexivity ].
  cbv beta. unfold Char. rewrite matcher_CharSet. unfold Canonicalize.
  destruct (drop 18 v) as [| d y] eqn:Ed; [ reflexivity |].
  destruct (d =? 62); [| reflexivity ]. simpl andb. cbv iota.
  assert (length (drop 18 v) = S (length y)) by (rewrite Ed; reflexivity).
  rewrite length_drop in H. do 2 f_equal. simpl. lia.
Qed.

(** [.+?] before the id: the shortest name is tried first. *)
Lemma lazy_run_name (L : nat) (u : jsstring) :
  lazy_run (fun c => negb (isLineTerminator c))
    (fun u' => if id_suffix u' then Some ((L - (length u' - 20))%nat, @None jsstring) else None) u
  = (fun n => ((L - (length u - n - 20))%nat, None)) <$> name_rest_length u.
Proof.
  induction u as [| c u IH].
  - reflexivity.
  - cbn [lazy_run name_rest_length].
    destruct (id_suffix (c :: u)).
    + cbn; f_equal; f_equal; lia.
    + destruct (isLineTerminator c); [ reflexivity |]. cbn [negb].
      rewrite IH. destruct (name_rest_length u); reflexivity.
Qed.

(** [:.+?:\d{18}>] *)
Lemma matcher_markup_tail (L : nat) (t : jsstring) :
  matcher (Seq (Char false 58)
            (Seq (Quant 1 None false Dot)
              (Seq (Char false 58)
                (Seq (Quant 18 (Some 18%nat) true ClassDigit) (Char false 62)))))
    t None (fun y c => Some ((L - length y)%nat, c))
  = (fun n => ((L - (length t - n))%nat, None)) <$> markup_tail_length t.
Proof.
  rewrite matcher_Seq. unfold Char at 1. rewrite matcher_CharSet.
  unfold markup_tail_length, Canonicalize.
  destruct t as [| c t]; [ reflexivity |].
  destruct (c =? 58); [| destruct t; reflexivity ]. cbv beta.
  rewrite matcher_Seq. unfold Dot. rewrite matcher_plus.
  destruct t as [| c1 u]; [ reflexivity |].
  destruct (isLineTerminator c1); [ reflexivity |]. cbn [negb andb].
  rewrite (lazy_run_ext _ _ _ u (fun u' => matcher_id_suffix L u' None)).
  rewrite (lazy_run_name L u).
  destruct (name_rest_length u) as [n |] eqn:En; [| reflexivity ].
  apply name_rest_length_bound in En. cbn; f_equal; f_equal; lia.
Qed.

Lemma markup_tail_length_bound (t : jsstring) (n : nat) :
  markup_tail_length t = Some n -> (n <= length t)%nat.
Proof.
  unfold markup_tail_length. destruct t as [| c [| c1 u]]; try discriminate.
  destruct ((c =? 58) && negb (isLineTerminator c1)); [| discriminate ].
  destruct (name_rest_length u) as [m |] eqn:Em; [| discriminate ].
  apply name_rest_length_bound in Em. intros Hn. injection Hn as <-. simpl. lia.
Qed.

(** The pattern of the emoji markup matches exactly where the markup, as
    the specification words it, starts, and over its length. *)
Lemma match_here_emoji (s : jsstring) :
  fst <$> match_here re_emoji s = emoji_markup_length s.
Proof.
  unfold match_here, re_emoji, emoji_markup_length.
  rewrite matcher_Seq. unfold Char at 1. rewrite matcher_CharSet. unfold Canonicalize.
  destruct s as [| c s1]; [ reflexivity |].
  destruct (c =? 60); [| reflexivity ]. cbv beta.
  rewrite matcher_Seq. unfold Char at 1. rewrite matcher_optional. unfold Canonicalize.
  destruct s1 as [| a s2].
  - rewrite matcher_markup_tail. reflexivity.
  - destruct (N.eqb_spec a 97) as [-> | Ha].
    + rewrite !matcher_markup_tail.
      replace (markup_tail_length (97 :: s2)) with (@None nat)
        by (destruct s2; reflexivity).
      destruct (markup_tail_length s2) as [n |] eqn:En; [| reflexivity ].
      apply markup_tail_length_bound in En. cbn. f_equal. lia.
    + rewrite matcher_markup_tail.
      destruct (markup_tail_length (a :: s2)) as [n |] eqn:En; [| reflexivity ].
      apply markup_tail_length_bound in En. cbn in *. f_equal. lia.
Qed.

Lemma emoji_markup_length_pos (s : jsstring) (len : nat) :
  emoji_markup_length s = Some len -> (0 < len)%nat.
Proof.
  unfold emoji_markup_length. destruct s as [| c [| a s2]]; try discriminate.
  - destruct (c =? 60); discriminate.
  - destruct (c =? 60); [| discriminate ].
    destruct (a =? 97).
    + destruct (markup_tail_length s2); [| discriminate ].
      intros Hn. injection Hn as <-. lia.
    + destruct (markup_tail_length (a :: s2)); [| discriminate ].
      intros Hn. injection Hn as <-. lia.
Qed.

Lemma replace_scan_emoji (s before : jsstring) (inside : nat) :
  replace_scan (fun t => fst <$> match_here re_emoji t) [] before s inside
  = remove_emoji_markup s inside.
Proof.
  revert before inside. induction s as [| c s IH]; intros before inside.
  - destruct inside; [| reflexivity ].
    cbn [replace_scan]. rewrite match_here_emoji. reflexivity.
  - destruct inside as [| n]; [| simpl; apply IH ].
    cbn [replace_scan remove_emoji_markup]. rewrite match_here_emoji.
    destruct (emoji_markup_length (c :: s)) as [len |] eqn:E.
    + apply emoji_markup_length_pos in E.
      destruct len as [| len]; [ lia |].
      cbn [GetSubstitution app Nat.sub]. rewrite Nat.sub_0_r. apply IH.
    + rewrite IH. reflexivity.
Qed.

Lemma inputText_of_spec (text : jsstring) :
  inputText_of text = trim (remove_emoji_markup text 0).
Proof.
  unfold inputText_of, RegExp_replace_all. rewrite replace_scan_emoji. reflexivity.
Qed.

(** C3: the cleaned text is not always what is put into the prompt.
    For the input " Price: $$5 <a:wave:123456789012345678> " the cleaned
    text is "Price: $$5" (markup removed, then trimmed), but
    [replace("{text}", inputText)] reads the two dollar signs as the
    pattern for one: the prompt sent holds "Price: $5" and nowhere the
    cleaned text. *)
Lemma translate_dollar_text_altered :
  inputText_of (js " Price: $$5 <a:wave:123456789012345678> ") = js "Price: $$5" /\
  requests (snd (translate example_disk (answers (js "ok")) example_assistant
                   (js " Price: $$5 <a:wave:123456789012345678> ") (js "fr") None
                   (world_with None None)))
  = [js "Translate from  to fr: Price: $5"] /\
  includes (js "Price: $$5") (js "Translate from  to fr: Price: $5") = false.
Proof. repeat split; vm_compute; reflexivity. Qed.

(** ** translate: the parsing of the response *)

Lemma take_skip_while (p : N -> bool) (s : jsstring) :
  take_while p s ++ skip_while p s = s.
Proof.
  induction s as [| c s IH]; simpl; [ reflexivity |].
  destruct (p c); simpl; [ rewrite IH |]; reflexivity.
Qed.

Lemma take_while_length (p : N -> bool) (s : jsstring) :
  take (length s - length (skip_while p s)) s = take_while p s.
Proof.
  rewrite <- (take_skip_while p s) at 1 3.
  rewrite length_app, Nat.add_sub. apply take_app_length.
Qed.

Lemma greedy_run_total {R : Type} (p : N -> bool) (f : jsstring -> R) (s : jsstring) :
  greedy_run p (fun y => Some (f y)) s = Some (f (skip_while p s)).
Proof.
  induction s as [| c s IH]; simpl; [ reflexivity |].
  destruct (p c); [ rewrite IH |]; reflexivity.
Qed.

Lemma matcher_line_capture (L : nat) (r : jsstring) (cap : option jsstring) :
  matcher (Group (Quant 1 None true Dot)) r cap
    (fun y c => Some ((L - length y)%nat, c))
  = line_capture L r.
Proof.
  rewrite matcher_Group. unfold Dot. rewrite matcher_plus. unfold line_capture.
  destruct r as [| c r]; [ reflexivity |].
  destruct (isLineTerminator c) eqn:Ec; [ reflexivity |]. cbn [negb].
  rewrite (greedy_run_total _
             (fun y => ((L - length y)%nat,
                        Some (take (length (c :: r) - length y) (c :: r))))).
  fold within_line.
  assert (Hs : skip_while within_line (c :: r) = skip_while within_line r).
  { simpl. unfold within_line at 1. rewrite Ec. reflexivity. }
  rewrite <- Hs, take_while_length. reflexivity.
Qed.

Lemma skip_while_nil_iff (p : N -> bool) (s : jsstring) :
  skip_while p s = [] <-> forallb p s = true.
Proof.
  induction s as [| c s IH]; simpl; [ tauto |].
  destruct (p c); simpl; [ exact IH |]. split; discriminate.
Qed.

Lemma take_while_all (p q : N -> bool) (s : jsstring) :
  forallb q s = true -> forallb q (take_while p s) = true.
Proof.
  induction s as [| c s IH]; simpl; [ reflexivity |].
  intros H. apply andb_prop in H as [Hc Hs].
  destruct (p c); simpl; [ rewrite Hc, (IH Hs) |]; reflexivity.
Qed.

Lemma trim_all_space (s : jsstring) : forallb isSpace s = true -> trim s = [].
Proof.
  intros H. unfold trim.
  replace (trimStart s) with (@nil N); [ reflexivity |].
  induction s as [| c s IH]; simpl; [ reflexivity |].
  simpl in H. apply andb_prop in H as [Hc Hs]. rewrite Hc. exact (IH Hs).
Qed.

Lemma not_space_within_line (c : N) : isSpace c = false -> isLineTerminator c = false.
Proof. unfold isSpace. intros H. apply orb_false_elim in H as [_ H]. exact H. Qed.

(** [\s*(.+)] after the label: when something other than white space
    follows, the match takes all the white space and then the rest of
    the line reached, without backtracking. *)
Lemma greedy_run_space_found (L : nat) (r : jsstring) :
  skip_while isSpace r <> [] ->
  greedy_run isSpace (line_capture L) r = line_capture L (skip_while isSpace r) /\
  line_capture L (skip_while isSpace r) <> None.
Proof.
  induction r as [| c r IH]; simpl; [ congruence |].
  destruct (isSpace c) eqn:Ec.
  - intros H. destruct (IH H) as [-> Hn]. split; [| exact Hn ].
    destruct (line_capture L (skip_while isSpace r)); [ reflexivity | congruence ].
  - intros _. split; [ reflexivity |].
    unfold line_capture. rewrite (not_space_within_line c Ec). discriminate.
Qed.

(** When only white space follows the label, whatever the backtracking
    finds is white space. *)
Lemma greedy_run_space_only (L : nat) (r : jsstring) :
  forallb isSpace r = true ->
  usable (snd <$> greedy_run isSpace (line_capture L) r) = None.
Proof.
  induction r as [| c r IH]; simpl; [ reflexivity |].
  intros H. apply andb_prop in H as [Hc Hr]. rewrite Hc.
  destruct (greedy_run isSpace (line_capture L) r) as [x |]; [ exact (IH Hr) |].
  unfold line_capture. destruct (isLineTerminator c); [ reflexivity |].
  unfold usable. cbn [fmap option_fmap option_map snd mbind option_bind id].
  rewrite trim_all_space; [ reflexivity |].
  apply (take_while_all within_line isSpace (c :: r)).
  simpl. rewrite Hc, Hr. reflexivity.
Qed.

Lemma usable_after_label (L : nat) (r : jsstring) :
  usable (snd <$> greedy_run isSpace (line_capture L) r)
  = truthy (Some (trim (take_while within_line (skip_while isSpace r)))).
Proof.
  destruct (skip_while isSpace r) as [| c r'] eqn:E.
  - apply skip_while_nil_iff in E. rewrite (greedy_run_space_only L r E). reflexivity.
  - assert (Hne : skip_while isSpace r <> []) by (rewrite E; discriminate).
    destruct (greedy_run_space_found L r Hne) as [-> Hn]. rewrite E in *.
    unfold line_capture in *.
    destruct (isLineTerminator c); [ congruence |]. reflexivity.
Qed.

Lemma match_here_labelled (label s : jsstring) :
  match_here (re_labelled label) s =
    if starts_with_pattern true label s
    then greedy_run isSpace (line_capture (length s)) (drop (length label) s)
    else None.
Proof.
  unfold match_here, re_labelled. rewrite matcher_Seq, matcher_Lit.
  destruct (starts_with_pattern true label s); [| reflexivity ].
  rewrite matcher_Seq. unfold ClassSpace. rewrite matcher_star.
  apply greedy_run_ext. intros t. apply matcher_line_capture.
Qed.

Lemma space_not_colon (c : N) :
  isSpace c = true -> (Canonicalize true c =? Canonicalize true 58) = false.
Proof.
  intros H. apply N.eqb_neq. intros E. unfold Canonicalize, upper_unit in E.
  change (isLower 58) with false in E. cbv iota in E.
  destruct (isLower c) eqn:El.
  - unfold isLower in El. apply andb_prop in El as [E1 E2].
    apply N.leb_le in E1, E2. lia.
  - subst c. discriminate H.
Qed.

(** A label that ends in a colon does not start where fewer code units
    than its length stand before nothing but white space. *)
Lemma starts_with_pattern_short (body y w : jsstring) :
  (length y < length (body ++ [58%N]))%nat ->
  forallb isSpace w = true ->
  starts_with_pattern true (body ++ [58]) (y ++ w) = false.
Proof.
  revert y w. induction body as [| b body IH]; intros y w Hy Hw.
  - destruct y as [| c y]; [| simpl in Hy; lia ].
    destruct w as [| c w]; [ reflexivity |].
    simpl in Hw. apply andb_prop in Hw as [Hc _].
    cbn [app starts_with_pattern]. rewrite (space_not_colon c Hc). reflexivity.
  - destruct y as [| c y].
    + destruct w as [| c w]; [ reflexivity |].
      simpl in Hw. apply andb_prop in Hw as [_ Hw].
      cbn [app starts_with_pattern].
      pose proof (IH [] w ltac:(rewrite length_app; simpl; lia) Hw) as H.
      cbn [app] in H. rewrite H. apply andb_false_r.
    + cbn [app starts_with_pattern].
      rewrite (IH y w ltac:(simpl in Hy; rewrite length_app in *; simpl in *; lia) Hw).
      apply andb_false_r.
Qed.

Lemma starts_with_pattern_space (body w : jsstring) :
  forallb isSpace w = true ->
  starts_with_pattern true (body ++ [58]) w = false.
Proof.
  intros Hw.
  apply (starts_with_pattern_short body [] w); [| exact Hw ].
  rewrite length_app. simpl. lia.
Qed.

Lemma exec_from_short (body y w : jsstring) (i : nat) :
  (length y < length (body ++ [58%N]))%nat ->
  forallb isSpace w = true ->
  exec_from (re_labelled (body ++ [58])) i (y ++ w) = None.
Proof.
  revert i. induction y as [| c y IHy]; intros i Hy Hw.
  - clear Hy. revert i. induction w as [| c w IHw]; intros i.
    + cbn [app exec_from]. rewrite match_here_labelled.
      rewrite (starts_with_pattern_space body [] eq_refl). reflexivity.
    + cbn [app exec_from]. rewrite match_here_labelled.
      rewrite (starts_with_pattern_space body (c :: w) Hw).
      simpl in Hw. apply andb_prop in Hw as [_ Hw']. apply (IHw Hw').
  - cbn [app exec_from]. rewrite match_here_labelled.
    change (c :: y ++ w) with ((c :: y) ++ w).
    rewrite (starts_with_pattern_short body (c :: y) w Hy Hw).
    apply IHy; [ simpl in Hy; lia | exact Hw ].
Qed.

Lemma starts_with_pattern_length (ignoreCase : bool) (pat s : jsstring) :
  starts_with_pattern ignoreCase pat s = true -> (length pat <= length s)%nat.
Proof.
  revert s. induction pat as [| p pat IH]; intros [| c s]; simpl;
    try lia; try discriminate.
  intros H. apply andb_prop in H as [_ H]. apply IH in H. lia.
Qed.

(** The capture of [/Label:\s*(.+)/i], as the code uses it, is the value
    of the label: the first occurrence of the label decides, the white
    space after it is passed over, and the rest of the line reached is
    the value. *)
Lemma String_match_labelled (body s : jsstring) (i : nat) :
  usable (capture1 <$> exec_from (re_labelled (body ++ [58])) i s)
  = labelled_value (body ++ [58]) s.
Proof.
  revert i. induction s as [| c s IH]; intros i.
  - unfold labelled_value. cbn [exec_from after_label].
    rewrite match_here_labelled, (starts_with_pattern_space body [] eq_refl).
    reflexivity.
  - unfold labelled_value. cbn [exec_from after_label].
    rewrite match_here_labelled.
    destruct (starts_with_pattern true (body ++ [58]) (c :: s)) eqn:E.
    + pose proof (usable_after_label (length (c :: s))
                    (drop (length (body ++ [58])) (c :: s))) as Hu.
      destruct (greedy_run isSpace (line_capture (length (c :: s)))
                  (drop (length (body ++ [58])) (c :: s)))
        as [[len cap] |] eqn:G.
      * exact Hu.
      * rewrite <- Hu.
        assert (Hsp : forallb isSpace (drop (length (body ++ [58])) (c :: s)) = true).
        { apply skip_while_nil_iff.
          destruct (skip_while isSpace (drop (length (body ++ [58])) (c :: s)))
            as [| x r] eqn:Es; [ reflexivity |].
          destruct (greedy_run_space_found (length (c :: s))
                      (drop (length (body ++ [58])) (c :: s))) as [Hg Hn];
            [ rewrite Es; discriminate |].
          rewrite G in Hg. congruence. }
        apply starts_with_pattern_length in E.
        pose proof (take_drop (length (body ++ [58])) (c :: s)) as Htd.
        assert (Hl : length (take (length (body ++ [58])) (c :: s))
                     = length (body ++ [58])) by (rewrite length_take; lia).
        destruct (take (length (body ++ [58])) (c :: s)) as [| c' y] eqn:Et.
        { rewrite length_app in Hl. simpl in Hl. lia. }
        cbn [app] in Htd. injection Htd as _ Hs. rewrite <- Hs.
        rewrite (exec_from_short body y _ (S i)); [ reflexivity | | exact Hsp ].
        simpl in Hl. lia.
    + apply IH.
Qed.

Lemma capture_bind (o : option MatchResult) :
  (capture1 <$> o) ≫= id = o ≫= capture1.
Proof. destruct o; reflexivity. Qed.

Lemma translate_parse_spec (response : jsstring) :
  translate_parse response = fields_of labelled_value response.
Proof.
  unfold translate_parse, fields_of, String_match, re_cleaned, re_translated.
  rewrite <- !capture_bind.
  change (js "Cleaned:") with (js "Cleaned" ++ [58]).
  change (js "Translated:") with (js "Translated" ++ [58]).
  pose proof (String_match_labelled (js "Cleaned") (trim response) 0) as Hc.
  pose proof (String_match_labelled (js "Translated") (trim response) 0) as Ht.
  unfold usable in Hc, Ht. rewrite Hc, Ht. reflexivity.
Qed.

(** The fields as the code reads them: the response is trimmed; the value of a
    label is found after its first occurrence in any letter case, past
    the white space that follows it (line breaks included), as the rest
    of the line reached, trimmed; when both values exist the call returns
    them, and when a label is absent or nothing but white space follows
    it the call raises the malformed-response error.  The response
    "Cleaned: hi", line break, "Translated: bonjour" gives hi and bonjour. *)
Theorem translate_response_fields
    (prompts_json : nat -> completion (gmap jsstring PromptData))
    (remote : GenerativeModel -> list jsstring -> jsstring -> completion jsstring)
    (self : KaruAssistant) (text target : jsstring) (fromLanguage : option jsstring)
    (w : World) (catalog : gmap jsstring PromptData) (d : PromptData)
    (response : jsstring) :
  PromptLoader_prompts w = Some catalog ->
  catalog !! js "translate" = Some d ->
  template d <> [] ->
  remote (model self) (requests w)
    (translate_prompt (template d) (inputText_of text) target fromLanguage)
  = Return response ->
  fst (translate prompts_json remote self text target fromLanguage w)
  = fields_of labelled_value response /\
  (fields_of labelled_value response = Throw malformed_response <->
   labelled_value (js "Cleaned:") (trim response) = None \/
   labelled_value (js "Translated:") (trim response) = None) /\
  translate_parse (js "Cleaned: hi" ++ LF ++ js "Translated: bonjour")
  = Return {| cleaned := js "hi"; translated := js "bonjour" |}.
Proof.
  intros Hw Hc Ht Hr. split; [| split ].
  - unfold translate, bind.
    rewrite (PromptLoader_get_cached prompts_json w catalog _ Hw).
    unfold Get. rewrite Hc. cbn [template_of].
    rewrite (truthy_Some _ Ht).
    unfold generateContent. rewrite Hr. cbn [fst].
    apply translate_parse_spec.
  - unfold fields_of.
    destruct (labelled_value (js "Cleaned:") (trim response));
      destruct (labelled_value (js "Translated:") (trim response));
      split; intros H; try reflexivity; try discriminate H;
      try (left; reflexivity); try (right; reflexivity);
      destruct H; discriminate.
  - vm_compute. reflexivity.
Qed.

Lemma translate_response_fields_witness :
  fst (translate example_disk
         (answers (js "Cleaned: hi" ++ LF ++ js "Translated: bonjour"))
         example_assistant (js "hi") (js "fr") None loaded_world)
  = Return {| cleaned := js "hi"; translated := js "bonjour" |}.
Proof.
  rewrite (proj1 (translate_response_fields example_disk
             (answers (js "Cleaned: hi" ++ LF ++ js "Translated: bonjour"))
             example_assistant (js "hi") (js "fr") None loaded_world example_prompts
             {| description := js "Translate a text";
                template := js "Translate from {fromLanguage} to {targetLanguage}: {text}" |}
             (js "Cleaned: hi" ++ LF ++ js "Translated: bonjour")
             eq_refl ltac:(vm_compute; reflexivity) ltac:(discriminate) eq_refl)).
  vm_compute. reflexivity.
Defined.

(** C1: in "Cleaned:", line break, "Translated: bonjour" the line of
    the first label holds no value, so the response is malformed and the
    call should raise the malformed-response error; the code returns,
    with the whole next line as the cleaned text, because the white
    space that the pattern allows after the colon runs over the line
    break. *)
Lemma translate_parse_beyond_the_line :
  rest_of_line_value (js "Cleaned:")
    (trim (js "Cleaned:" ++ LF ++ js "Translated: bonjour")) = None /\
  fields_of rest_of_line_value (js "Cleaned:" ++ LF ++ js "Translated: bonjour")
  = Throw malformed_response /\
  translate_parse (js "Cleaned:" ++ LF ++ js "Translated: bonjour")
  = Return {| cleaned := js "Translated: bonjour"; translated := js "bonjour" |} /\
  fst (translate example_disk
         (answers (js "Cleaned:" ++ LF ++ js "Translated: bonjour"))
         example_assistant (js "hello") (js "fr") None (world_with None None))
  = Return {| cleaned := js "Translated: bonjour"; translated := js "bonjour" |}.
Proof. repeat split; vm_compute; reflexivity. Qed.

(** *** A value on the line after its label *)

Lemma last_app_ne (l1 l2 : jsstring) (d : N) :
  l2 <> [] -> List.last (l1 ++ l2) d = List.last l2 d.
Proof.
  intros H. induction l1 as [| c l1 IH]; [ reflexivity |].
  cbn [app]. destruct (l1 ++ l2) eqn:E.
  - destruct l1; [ simpl in E; congruence | discriminate E ].
  - simpl. simpl in IH. exact IH.
Qed.

Lemma trimStart_keep (s : jsstring) : isSpace (hd 32 s) = false -> trimStart s = s.
Proof. destruct s as [| c s]; simpl; [ reflexivity |]. intros ->. reflexivity. Qed.

Lemma trimEnd_keep (s : jsstring) : isSpace (List.last s 32) = false -> trimEnd s = s.
Proof.
  intros H. destruct s as [| c s]; [ reflexivity |].
  unfold trimEnd.
  rewrite (app_removelast_last 32 (l := c :: s)) at 1 by discriminate.
  rewrite rev_app_distr. cbn [rev app trimStart]. rewrite H.
  change (List.last (c :: s) 32 :: rev (removelast (c :: s)))
    with (rev [List.last (c :: s) 32] ++ rev (removelast (c :: s))).
  rewrite <- rev_app_distr, rev_involutive.
  symmetry. apply app_removelast_last. discriminate.
Qed.

Lemma trim_keep (s : jsstring) :
  isSpace (hd 32 s) = false -> isSpace (List.last s 32) = false -> trim s = s.
Proof.
  intros H1 H2. unfold trim. rewrite (trimStart_keep s H1). apply trimEnd_keep, H2.
Qed.

Lemma starts_with_pattern_app (ignoreCase : bool) (pat s : jsstring) :
  starts_with_pattern ignoreCase pat (pat ++ s) = true.
Proof.
  induction pat as [| p pat IH]; simpl; [ reflexivity |].
  rewrite N.eqb_refl, IH. reflexivity.
Qed.

Lemma skip_while_app (p : N -> bool) (gap s : jsstring) :
  forallb p gap = true -> skip_while p (gap ++ s) = skip_while p s.
Proof.
  induction gap as [| c gap IH]; simpl; [ reflexivity |].
  intros H. apply andb_prop in H as [-> H]. exact (IH H).
Qed.

Lemma take_while_whole (p : N -> bool) (s : jsstring) :
  forallb p s = true -> take_while p s = s.
Proof.
  induction s as [| c s IH]; simpl; [ reflexivity |].
  intros H. apply andb_prop in H as [-> H]. rewrite (IH H). reflexivity.
Qed.

Lemma after_label_skip (label before s : jsstring) :
  label <> [] ->
  forallb (fun c => negb (Canonicalize true c =? Canonicalize true (hd 0 label))) before
  = true ->
  after_label label (before ++ s) = after_label label s.
Proof.
  intros Hl. destruct label as [| l label]; [ congruence |]. cbn [hd].
  induction before as [| c before IH]; [ reflexivity |].
  intros H. cbn [forallb] in H. apply andb_prop in H as [Hc H].
  cbn [app after_label starts_with_pattern].
  destruct (Canonicalize true c =? Canonicalize true l); [ discriminate |].
  cbn [andb]. exact (IH H).
Qed.

Lemma after_label_here (label s : jsstring) :
  after_label label (label ++ s) = Some s.
Proof.
  assert (H : forall t, after_label label t =
            if starts_with_pattern true label t then Some (drop (length label) t)
            else match t with [] => None | _ :: t' => after_label label t' end)
    by (intros [| c t]; reflexivity).
  rewrite H, starts_with_pattern_app, drop_app_length. reflexivity.
Qed.

Lemma space_not_T (c : N) :
  isSpace c = true -> negb (Canonicalize true c =? Canonicalize true 84) = true.
Proof.
  intros H. apply negb_true_iff, N.eqb_neq. intros E.
  unfold Canonicalize, upper_unit in E.
  change (isLower 84) with false in E. cbv iota in E.
  destruct (isLower c) eqn:El.
  - unfold isLower in El. apply andb_prop in El as [E1 E2].
    apply N.leb_le in E1, E2. assert (c = 116) by lia. subst c. discriminate H.
  - subst c. discriminate H.
Qed.

(** C10: the white space after "Cleaned:" may hold line breaks.  When
    only white space stands between "Cleaned:" and a "Translated: " line
    with a value, the call does not raise the malformed-response error:
    the cleaned field is that whole following line. *)
Theorem translate_parse_next_line (gap value : jsstring) :
  forallb isSpace gap = true ->
  isSpace (hd 32 value) = false ->
  isSpace (List.last value 32) = false ->
  forallb within_line value = true ->
  translate_parse (js "Cleaned:" ++ gap ++ js "Translated: " ++ value)
  = Return {| cleaned := js "Translated: " ++ value; translated := value |}.
Proof.
  intros Hg Hh Hl Hv.
  assert (Hne : value <> []) by (intros ->; discriminate Hh).
  assert (Hlabel : trim (js "Translated: " ++ value) = js "Translated: " ++ value).
  { apply trim_keep; [ reflexivity |]. rewrite (last_app_ne _ _ _ Hne). exact Hl. }
  rewrite translate_parse_spec. unfold fields_of.
  assert (Htrim : trim (js "Cleaned:" ++ gap ++ js "Translated: " ++ value)
                  = js "Cleaned:" ++ gap ++ js "Translated: " ++ value).
  { apply trim_keep; [ reflexivity |].
    rewrite !app_assoc. rewrite (last_app_ne _ _ _ Hne). exact Hl. }
  rewrite Htrim.
  assert (Hc : labelled_value (js "Cleaned:")
                 (js "Cleaned:" ++ gap ++ js "Translated: " ++ value)
               = Some (js "Translated: " ++ value)).
  { unfold labelled_value.
    rewrite after_label_here, (skip_while_app _ _ _ Hg).
    change (skip_while isSpace (js "Translated: " ++ value))
      with (js "Translated: " ++ value).
    rewrite take_while_whole.
    - rewrite Hlabel. reflexivity.
    - rewrite forallb_app, Hv. reflexivity. }
  assert (Ht : labelled_value (js "Translated:")
                 (js "Cleaned:" ++ gap ++ js "Translated: " ++ value)
               = Some value).
  { unfold labelled_value. rewrite app_assoc.
    rewrite after_label_skip.
    - change (js "Translated: " ++ value) with (js "Translated:" ++ 32 :: value).
      rewrite after_label_here.
      cbn [skip_while]. change (isSpace 32) with true. cbv iota.
      destruct value as [| c v]; [ congruence |].
      cbn [hd] in Hh. cbn [skip_while]. rewrite Hh.
      rewrite (take_while_whole _ _ Hv), trim_keep by assumption.
      reflexivity.
    - discriminate.
    - rewrite forallb_app. apply andb_true_intro. split; [ reflexivity |].
      apply forallb_forall. intros c Hin.
      apply space_not_T. rewrite forallb_forall in Hg. apply Hg, Hin. }
  rewrite Hc, Ht. reflexivity.
Qed.

Lemma translate_parse_next_line_witness :
  translate_parse (js "Cleaned:" ++ LF ++ js "Translated: " ++ js "bonjour")
  = Return {| cleaned := js "Translated: bonjour"; translated := js "bonjour" |}.
Proof.
  exact (translate_parse_next_line LF (js "bonjour") eq_refl eq_refl eq_refl eq_refl).
Defined.

(** * Further properties of the code *)

(** ** The locale resolver and its table *)

Lemma LOCALE_TO_LANGUAGE_entry (k : jsstring) (l : Languages) :
  LOCALE_TO_LANGUAGE !! k = Some l ->
  IsStructurallyValidLanguageTag k = true /\
  toLowerCase k = k /\
  LOCALE_TO_LANGUAGE !! hd [] (subtags k) = Some l /\
  (forallb (fun c => negb (c =? 45)) k = true -> k = Languages_value l).
Proof.
  intros H. unfold LOCALE_TO_LANGUAGE in H.
  apply elem_of_list_to_map_2, list_elem_of_In in H. simpl in H.
  repeat (destruct H as [H | H];
          [ injection H as <- <-;
            (split; [ vm_compute; reflexivity |
             split; [ vm_compute; reflexivity |
             split; [ vm_compute; reflexivity |
             intros Hh; first [ reflexivity | vm_compute in Hh; discriminate Hh ]]]]) |]).
  destruct H.
Qed.

Lemma LOCALE_TO_LANGUAGE_code (l : Languages) :
  LOCALE_TO_LANGUAGE !! Languages_value l = Some l.
Proof. destruct l; vm_compute; reflexivity. Qed.

Lemma subtags_toLowerCase (s : jsstring) :
  subtags (toLowerCase s) = map toLowerCase (subtags s).
Proof.
  induction s as [| c s IH]; [ reflexivity |].
  cbn [toLowerCase map subtags]. rewrite lower_unit_hyphen.
  change (map lower_unit s) with (toLowerCase s). rewrite IH.
  destruct (c =? 45); [ reflexivity |].
  destruct (subtags s); reflexivity.
Qed.

Lemma Intl_Locale_not_empty (data : LocaleData) (intl : Locale) :
  Intl_Locale data [] <> Return intl.
Proof.
  unfold Intl_Locale.
  replace (IsStructurallyValidLanguageTag []) with false by (vm_compute; reflexivity).
  discriminate.
Qed.

Lemma lower_word_no_hyphen (s : jsstring) :
  forallb isLower s = true -> forallb (fun c => negb (c =? 45)) s = true.
Proof.
  intros H. rewrite forallb_forall in *. intros c Hc. specialize (H c Hc).
  unfold isLower in H. apply andb_prop in H as [H _]. apply N.leb_le in H.
  apply negb_true_iff, N.eqb_neq. lia.
Qed.

(** What [Intl.Locale] reports as language is a word of lower-case
    letters. *)
Lemma reported_language_word (data : LocaleData) (locale : jsstring) (intl : Locale)
    (lang : jsstring) :
  Intl_Locale data locale = Return intl -> language intl = Some lang ->
  toLowerCase lang = lang /\ forallb isLower lang = true.
Proof.
  intros Hi Hs. destruct (Intl_Locale_wellformed _ _ _ Hi) as [_ Hrep].
  rewrite Hrep in Hs.
  destruct (reported_language_shape data _ _ Hs) as [Hshape Hlow].
  split; [ exact Hlow |].
  apply is_language_subtag_shape in Hshape as [Hl _]. rewrite Hlow in Hl. exact Hl.
Qed.

(** For a tag that [Intl.Locale] accepts, the language reported alone
    decides: the look-up of the whole lower-cased tag never gives
    anything else than the look-up of that language. *)
Lemma resolve_by_language (data : LocaleData) (locale : jsstring) (intl : Locale)
    (lang : jsstring) :
  Intl_Locale data locale = Return intl -> language intl = Some lang ->
  resolveLanguageFromLocale data locale =
    Return match LOCALE_TO_LANGUAGE !! lang with
           | Some l => Own l
           | None => Undefined
           end.
Proof.
  intros Hi Hs.
  destruct (accepted_lookups_own _ _ _ Hi) as [H1 H2]. specialize (H2 lang Hs).
  destruct (reported_language_word _ _ _ _ Hi Hs) as [Hidem _].
  destruct (Intl_Locale_wellformed _ _ _ Hi) as [_ Hrep].
  unfold resolveLanguageFromLocale.
  destruct locale as [| c s]; [ destruct (Intl_Locale_not_empty data intl Hi) |].
  cbn [is_empty]. rewrite Hi, Hs.
  rewrite (Get_not_inherited _ _ H1), (Get_not_inherited _ _ H2), Hidem.
  destruct (LOCALE_TO_LANGUAGE !! toLowerCase (c :: s)) as [l |] eqn:E;
    [| destruct (LOCALE_TO_LANGUAGE !! lang); reflexivity ].
  destruct (LOCALE_TO_LANGUAGE_entry _ _ E) as (_ & _ & Hhd & _).
  rewrite Hrep, (reported_language_keys data _ _ E) in Hs.
  assert (Hl : hd [] (subtags (toLowerCase (c :: s))) = lang) by congruence.
  rewrite <- Hl, Hhd. reflexivity.
Qed.

(** X1: for every string that [Intl.Locale] accepts and reports a
    language for, the resolver returns a language exactly when the
    language reported is that language's code: what decides is the
    language of the canonical form, not the tag as written (eng, reported
    as en, gives en; zh-hakka, reported as hak, gives undefined). *)
Theorem resolve_iff_language_code (data : LocaleData) (locale : jsstring)
    (intl : Locale) (lang : jsstring) (l : Languages) :
  Intl_Locale data locale = Return intl ->
  language intl = Some lang ->
  (resolveLanguageFromLocale data locale = Return (Own l) <->
   lang = Languages_value l).
Proof.
  intros Hi Hs. rewrite (resolve_by_language _ _ _ _ Hi Hs). split.
  - destruct (LOCALE_TO_LANGUAGE !! lang) as [l' |] eqn:E; [| discriminate ].
    intros H. injection H as ->.
    destruct (LOCALE_TO_LANGUAGE_entry _ _ E) as (_ & _ & _ & Hcode).
    apply Hcode, lower_word_no_hyphen.
    exact (proj2 (reported_language_word _ _ _ _ Hi Hs)).
  - intros ->. rewrite LOCALE_TO_LANGUAGE_code. reflexivity.
Qed.

Lemma resolve_iff_language_code_witness :
  resolveLanguageFromLocale sample_locale_data (js "zh-Hant-TW-u-nu-hanidec")
  = Return (Own ZH) /\
  resolveLanguageFromLocale sample_locale_data (js "ENG-us") = Return (Own EN) /\
  resolveLanguageFromLocale sample_locale_data (js "zh-hakka") <> Return (Own ZH).
Proof.
  split; [| split ].
  - apply (proj2 (resolve_iff_language_code sample_locale_data
                    (js "zh-Hant-TW-u-nu-hanidec") {| language := Some (js "zh") |}
                    (js "zh") ZH ltac:(vm_compute; reflexivity) eq_refl)).
    reflexivity.
  - apply (proj2 (resolve_iff_language_code sample_locale_data
                    (js "ENG-us") {| language := Some (js "en") |}
                    (js "en") EN ltac:(vm_compute; reflexivity) eq_refl)).
    reflexivity.
  - intros H.
    apply (proj1 (resolve_iff_language_code sample_locale_data
                    (js "zh-hakka") {| language := Some (js "hak") |}
                    (js "hak") ZH ltac:(vm_compute; reflexivity) eq_refl)) in H.
    discriminate H.
Defined.

(** X2: whatever the string, the resolver never hands back a property
    that the table inherits from [Object.prototype]: it raises, or
    returns undefined or a language. *)
Theorem resolve_never_inherited (data : LocaleData) (locale name : jsstring) :
  resolveLanguageFromLocale data locale <> Return (Inherited name).
Proof.
  destruct (Intl_Locale data locale) as [intl | e] eqn:Hi.
  - destruct (language intl) as [lang |] eqn:Hs.
    + rewrite (resolve_by_language _ _ _ _ Hi Hs).
      destruct (LOCALE_TO_LANGUAGE !! lang); discriminate.
    + unfold resolveLanguageFromLocale.
      destruct locale; cbn [is_empty]; [ discriminate |].
      rewrite Hi, Hs. discriminate.
  - unfold resolveLanguageFromLocale.
    destruct locale; cbn [is_empty]; [ discriminate |].
    rewrite Hi. discriminate.
Qed.

(** X3: every key of the table resolves to its own entry: each key is a
    well-formed tag, already in lower case. *)
Theorem resolve_table_key (data : LocaleData) (k : jsstring) (l : Languages) :
  LOCALE_TO_LANGUAGE !! k = Some l ->
  resolveLanguageFromLocale data k = Return (Own l).
Proof.
  intros H.
  destruct (LOCALE_TO_LANGUAGE_entry _ _ H) as (Hv & Hlow & Hhd & _).
  assert (Hi : Intl_Locale data k = Return {| language := Some (hd [] (subtags k)) |}).
  { unfold Intl_Locale. rewrite Hv, Hlow, (reported_language_keys data _ _ H).
    reflexivity. }
  rewrite (resolve_by_language _ _ _ _ Hi eq_refl), Hhd. reflexivity.
Qed.

Lemma resolve_table_key_witness :
  resolveLanguageFromLocale sample_locale_data (js "zh-hans") = Return (Own ZH).
Proof.
  apply (resolve_table_key sample_locale_data (js "zh-hans") ZH). vm_compute. reflexivity.
Defined.

(** *** Letter case *)

Lemma isUpper_bounds (c : N) : isUpper c = true -> 65 <= c /\ c <= 90.
Proof.
  unfold isUpper. intros H. apply andb_prop in H as [H1 H2].
  apply N.leb_le in H1, H2. split; assumption.
Qed.

Lemma isDigit_lower (c : N) : isDigit (lower_unit c) = isDigit c.
Proof.
  unfold lower_unit. destruct (isUpper c) eqn:E; [| reflexivity ].
  apply isUpper_bounds in E as [E1 E2]. unfold isDigit.
  rewrite (proj2 (N.leb_gt (c + 32) 57)) by lia.
  rewrite (proj2 (N.leb_gt c 57)) by lia.
  rewrite !andb_false_r. reflexivity.
Qed.

Lemma isAlpha_lower (c : N) : isAlpha (lower_unit c) = isAlpha c.
Proof.
  unfold lower_unit. destruct (isUpper c) eqn:E; [| reflexivity ].
  unfold isAlpha. rewrite E. apply isUpper_bounds in E as [E1 E2].
  apply orb_true_iff. right. unfold isLower.
  apply andb_true_intro; split; apply N.leb_le; lia.
Qed.

Lemma isAlnum_lower (c : N) : isAlnum (lower_unit c) = isAlnum c.
Proof. unfold isAlnum. rewrite isAlpha_lower, isDigit_lower. reflexivity. Qed.

Lemma forallb_toLowerCase (p : N -> bool) (t : jsstring) :
  (forall c, p (lower_unit c) = p c) ->
  forallb p (toLowerCase t) = forallb p t.
Proof.
  intros H. induction t as [| c t IH]; [ reflexivity |].
  cbn [toLowerCase map forallb]. rewrite H.
  change (map lower_unit t) with (toLowerCase t). rewrite IH. reflexivity.
Qed.

Lemma len_in_toLowerCase (lo hi : nat) (t : jsstring) :
  len_in lo hi (toLowerCase t) = len_in lo hi t.
Proof. unfold len_in, toLowerCase. rewrite length_map. reflexivity. Qed.

Lemma is_language_subtag_lower (t : jsstring) :
  is_language_subtag (toLowerCase t) = is_language_subtag t.
Proof.
  unfold is_language_subtag.
  rewrite (forallb_toLowerCase _ _ isAlpha_lower), !len_in_toLowerCase. reflexivity.
Qed.

Lemma is_script_subtag_lower (t : jsstring) :
  is_script_subtag (toLowerCase t) = is_script_subtag t.
Proof.
  unfold is_script_subtag.
  rewrite (forallb_toLowerCase _ _ isAlpha_lower), !len_in_toLowerCase. reflexivity.
Qed.

Lemma is_region_subtag_lower (t : jsstring) :
  is_region_subtag (toLowerCase t) = is_region_subtag t.
Proof.
  unfold is_region_subtag.
  rewrite (forallb_toLowerCase _ _ isAlpha_lower),
    (forallb_toLowerCase _ _ isDigit_lower), !len_in_toLowerCase.
  reflexivity.
Qed.

Lemma is_variant_subtag_lower (t : jsstring) :
  is_variant_subtag (toLowerCase t) = is_variant_subtag t.
Proof.
  unfold is_variant_subtag.
  rewrite (forallb_toLowerCase _ _ isAlnum_lower), !len_in_toLowerCase.
  destruct t as [| c t]; [ reflexivity |].
  cbn [toLowerCase map]. rewrite isDigit_lower. reflexivity.
Qed.

Lemma is_value_subtag_lower (t : jsstring) :
  is_value_subtag (toLowerCase t) = is_value_subtag t.
Proof.
  unfold is_value_subtag.
  rewrite (forallb_toLowerCase _ _ isAlnum_lower), !len_in_toLowerCase. reflexivity.
Qed.

Lemma is_ukey_lower (t : jsstring) : is_ukey (toLowerCase t) = is_ukey t.
Proof.
  destruct t as [| a [| b [| ? ?]]]; try reflexivity.
  cbn. rewrite isAlnum_lower, isAlpha_lower. reflexivity.
Qed.

Lemma is_tkey_lower (t : jsstring) : is_tkey (toLowerCase t) = is_tkey t.
Proof.
  destruct t as [| a [| b [| ? ?]]]; try reflexivity.
  cbn. rewrite isAlpha_lower, isDigit_lower. reflexivity.
Qed.

Lemma language_id_step_lower (phase : nat) (variants : list jsstring) (t : jsstring) :
  language_id_step phase variants (toLowerCase t) = language_id_step phase variants t.
Proof.
  unfold language_id_step.
  rewrite is_script_subtag_lower, is_region_subtag_lower, is_variant_subtag_lower,
    toLowerCase_idem.
  reflexivity.
Qed.

Lemma singleton_step_lower (seen : list N) (t : jsstring) :
  singleton_step seen (toLowerCase t) = singleton_step seen t.
Proof.
  destruct t as [| c [| ? ?]]; try reflexivity.
  cbn [toLowerCase map singleton_step].
  rewrite lower_unit_idem, isAlnum_lower. reflexivity.
Qed.

Lemma tag_step_lower (st : list N * tag_position) (t : jsstring) :
  tag_step st (toLowerCase t) = tag_step st t.
Proof.
  destruct st as [seen pos]. unfold tag_step. destruct pos;
  rewrite ?language_id_step_lower, ?is_language_subtag_lower, ?is_variant_subtag_lower,
    ?is_value_subtag_lower, ?is_ukey_lower, ?is_tkey_lower, ?singleton_step_lower,
    ?(forallb_toLowerCase _ _ isAlnum_lower), ?len_in_toLowerCase;
  reflexivity.
Qed.

Lemma tag_steps_lower (ts : list jsstring) (st : list N * tag_position) :
  fold_left tag_step (map toLowerCase ts) st = fold_left tag_step ts st.
Proof.
  revert st. induction ts as [| t ts IH]; intros st; [ reflexivity |].
  cbn [map fold_left]. rewrite tag_step_lower. apply IH.
Qed.

Lemma IsStructurallyValidLanguageTag_lower (s : jsstring) :
  IsStructurallyValidLanguageTag (toLowerCase s) = IsStructurallyValidLanguageTag s.
Proof.
  unfold IsStructurallyValidLanguageTag.
  rewrite subtags_toLowerCase, tag_steps_lower. reflexivity.
Qed.

Lemma Intl_Locale_lower (data : LocaleData) (s : jsstring) :
  Intl_Locale data (toLowerCase s) = Intl_Locale data s.
Proof.
  unfold Intl_Locale.
  rewrite IsStructurallyValidLanguageTag_lower, toLowerCase_idem. reflexivity.
Qed.

Lemma resolve_lower (data : LocaleData) (s : jsstring) :
  resolveLanguageFromLocale data (toLowerCase s) = resolveLanguageFromLocale data s.
Proof.
  unfold resolveLanguageFromLocale.
  rewrite Intl_Locale_lower, toLowerCase_idem.
  destruct s; reflexivity.
Qed.

(** X4: the resolver does not look at the case of the letters a to z in
    its argument: two strings that differ in nothing else give the same
    outcome, be it a language, undefined or an error. *)
Theorem resolve_case_insensitive (data : LocaleData) (a b : jsstring) :
  toLowerCase a = toLowerCase b ->
  resolveLanguageFromLocale data a = resolveLanguageFromLocale data b.
Proof.
  intros H. rewrite <- (resolve_lower data a), <- (resolve_lower data b), H. reflexivity.
Qed.

Lemma resolve_case_insensitive_witness :
  resolveLanguageFromLocale sample_locale_data (js "Pt-bR")
  = resolveLanguageFromLocale sample_locale_data (js "pT-Br").
Proof. apply resolve_case_insensitive. reflexivity. Defined.

(** ** The prompt loader *)

(** What a look-up in a loaded catalog gives. *)
Lemma PromptLoader_get_loaded
    (prompts_json : nat -> completion (gmap jsstring PromptData))
    (w : World) (catalog : gmap jsstring PromptData) (key : jsstring) (d : PromptData) :
  PromptLoader_prompts w = Some catalog ->
  catalog !! key = Some d ->
  PromptLoader_get prompts_json key w = (Return (data d), w).
Proof.
  intros Hw Hk. rewrite (PromptLoader_get_cached prompts_json w catalog key Hw).
  unfold Get. rewrite Hk. reflexivity.
Qed.

(** X5: from a state in which nothing is loaded and the file can be read,
    any run of [get] calls reads the file exactly once, on the first
    call; the catalog read then stays in place and no request is made. *)
Theorem PromptLoader_reads_once
    (prompts_json : nat -> completion (gmap jsstring PromptData))
    (key : jsstring) (keys : list jsstring) (w : World)
    (catalog : gmap jsstring PromptData) :
  PromptLoader_prompts w = None ->
  prompts_json (file_reads w) = Return catalog ->
  file_reads (gets prompts_json (key :: keys) w) = S (file_reads w) /\
  PromptLoader_prompts (gets prompts_json (key :: keys) w) = Some catalog /\
  requests (gets prompts_json (key :: keys) w) = requests w.
Proof.
  intros Hn Hf. unfold gets. cbn [fold_left].
  destruct (PromptLoader_load_first prompts_json w catalog Hn Hf)
    as (w1 & Hl & Hp & Hr & Hq).
  assert (H1 : snd (PromptLoader_get prompts_json key w) = w1)
    by (unfold PromptLoader_get, bind; rewrite Hl; reflexivity).
  rewrite H1, (PromptLoader_gets_cached prompts_json keys w1 catalog Hp).
  repeat split; assumption.
Qed.

Lemma PromptLoader_reads_once_witness :
  file_reads (gets example_disk [js "translate"; js "summarize"; js "nothing"]
                (world_with None None)) = 1%nat.
Proof.
  exact (proj1 (PromptLoader_reads_once example_disk (js "translate")
                  [js "summarize"; js "nothing"] (world_with None None)
                  example_prompts eq_refl eq_refl)).
Defined.

(** X6: a failed load is not remembered.  When the file cannot be read,
    [get] throws that failure and leaves the field empty; the next call
    reads the file again and, if the file is then readable, answers from
    it. *)
Theorem PromptLoader_failure_not_cached
    (prompts_json : nat -> completion (gmap jsstring PromptData))
    (key1 key2 : jsstring) (w : World) (e : exception)
    (catalog : gmap jsstring PromptData) (d : PromptData) :
  PromptLoader_prompts w = None ->
  prompts_json (file_reads w) = Throw e ->
  prompts_json (S (file_reads w)) = Return catalog ->
  catalog !! key2 = Some d ->
  fst (PromptLoader_get prompts_json key1 w) = Throw e /\
  PromptLoader_prompts (snd (PromptLoader_get prompts_json key1 w)) = None /\
  fst (PromptLoader_get prompts_json key2 (snd (PromptLoader_get prompts_json key1 w)))
  = Return (data d) /\
  file_reads (snd (PromptLoader_get prompts_json key2
                     (snd (PromptLoader_get prompts_json key1 w))))
  = S (S (file_reads w)).
Proof.
  intros Hn He Hf Hd.
  assert (H1 : PromptLoader_get prompts_json key1 w =
               (Throw e,
                {| PromptLoader_prompts := None;
                   file_reads := S (file_reads w);
                   process_env_GOOGLE_AI_API_KEY := process_env_GOOGLE_AI_API_KEY w;
                   globalThis_GOOGLE_AI_API_KEY := globalThis_GOOGLE_AI_API_KEY w;
                   requests := requests w |})).
  { unfold PromptLoader_get, bind, PromptLoader_load. rewrite Hn, He. reflexivity. }
  rewrite H1. cbn [fst snd PromptLoader_prompts].
  split; [ reflexivity |]. split; [ reflexivity |].
  unfold PromptLoader_get, bind, PromptLoader_load.
  cbn [PromptLoader_prompts file_reads]. rewrite Hf. cbn [ret fst snd file_reads].
  unfold Get. rewrite Hd. split; reflexivity.
Qed.

Lemma PromptLoader_failure_not_cached_witness :
  fst (PromptLoader_get
         (fun n => match n with O => Throw FileError | S _ => Return example_prompts end)
         (js "translate")
         (snd (PromptLoader_get
                 (fun n => match n with O => Throw FileError | S _ => Return example_prompts end)
                 (js "translate") (world_with None None))))
  = Return (data {| description := js "Translate a text";
                    template := js "Translate from {fromLanguage} to {targetLanguage}: {text}" |}).
Proof.
  exact (proj1 (proj2 (proj2 (PromptLoader_failure_not_cached
           (fun n => match n with O => Throw FileError | S _ => Return example_prompts end)
           (js "translate") (js "translate") (world_with None None) FileError
           example_prompts _ eq_refl eq_refl eq_refl
           ltac:(vm_compute; reflexivity))))).
Defined.

(** X7: once the catalog is loaded, [get] never raises and leaves the
    world as it is; a name the catalog defines gives its entry, also
    when every object inherits a property of that name; and the result
    is null exactly for the names that are neither defined in the catalog
    nor inherited. *)
Theorem PromptLoader_get_result
    (prompts_json : nat -> completion (gmap jsstring PromptData))
    (w : World) (catalog : gmap jsstring PromptData) (key : jsstring) :
  PromptLoader_prompts w = Some catalog ->
  (exists r, PromptLoader_get prompts_json key w = (Return r, w)) /\
  (forall d, catalog !! key = Some d ->
     PromptLoader_get prompts_json key w = (Return (data d), w)) /\
  (fst (PromptLoader_get prompts_json key w) = Return null <->
   catalog !! key = None /\ key ∉ Object_prototype_names).
Proof.
  intros Hw. rewrite (PromptLoader_get_cached prompts_json w catalog key Hw).
  split; [ eexists; reflexivity |]. split.
  - intros d Hd. unfold Get. rewrite Hd. reflexivity.
  - cbn [fst]. unfold Get. destruct (catalog !! key) as [d |].
    + split; [ discriminate | intros [H _]; discriminate H ].
    + destruct (bool_decide (key ∈ Object_prototype_names)) eqn:E.
      * apply bool_decide_eq_true_1 in E.
        split; [ discriminate | intros [_ H]; destruct (H E) ].
      * apply bool_decide_eq_false_1 in E.
        split; [ intros _; split; [ reflexivity | exact E ] | reflexivity ].
Qed.

Lemma PromptLoader_get_result_witness :
  PromptLoader_get example_disk (js "keypoints") loaded_world
  = (Return (data {| description := js "Key points of a text";
                     template := js "List {count} key points in {language}: {text}" |}),
     loaded_world).
Proof.
  apply (proj1 (proj2 (PromptLoader_get_result example_disk loaded_world
                         example_prompts (js "keypoints") eq_refl))).
  vm_compute. reflexivity.
Defined.

(** ** Construction of the assistant *)

(** X8: an empty string is a value for [??]: given as options.apiKey it
    makes the constructor raise the configuration error whatever the
    environment and the global hold, and set in the environment (with no
    options.apiKey) it does so whatever the global holds. *)
Theorem KaruAssistant_constructor_empty_key (options : KaruOptions) (w : World) :
  (apiKey options = Some [] \/
   (apiKey options = None /\ process_env_GOOGLE_AI_API_KEY w = Some [])) ->
  KaruAssistant_constructor options w = (Throw missing_api_key, w).
Proof.
  unfold KaruAssistant_constructor.
  intros [-> | [-> ->]]; reflexivity.
Qed.

Lemma KaruAssistant_constructor_empty_key_witness :
  KaruAssistant_constructor (options_with (Some []))
    (world_with (Some (js "k2")) (Some (js "k3")))
  = (Throw missing_api_key, world_with (Some (js "k2")) (Some (js "k3"))).
Proof.
  apply KaruAssistant_constructor_empty_key. left. reflexivity.
Defined.

(** ** The operations of the assistant *)

Section OperationFacts.
Variable prompts_json : nat -> completion (gmap jsstring PromptData).
Variable remote : GenerativeModel -> list jsstring -> jsstring -> completion jsstring.

Lemma PromptLoader_load_requests (w : World) :
  requests (snd (PromptLoader_load prompts_json w)) = requests w.
Proof.
  unfold PromptLoader_load. destruct (PromptLoader_prompts w); [ reflexivity |].
  destruct (prompts_json (file_reads w)); reflexivity.
Qed.

Lemma PromptLoader_get_requests (key : jsstring) (w : World) :
  requests (snd (PromptLoader_get prompts_json key w)) = requests w.
Proof.
  unfold PromptLoader_get, bind.
  pose proof (PromptLoader_load_requests w) as H.
  destruct (PromptLoader_load prompts_json w) as [[c | e] w1]; exact H.
Qed.

(** The template an operation works with, read from a loaded catalog. *)
Lemma PromptLoader_get_template (w : World) (catalog : gmap jsstring PromptData)
    (name : jsstring) :
  PromptLoader_prompts w = Some catalog ->
  exists found, PromptLoader_get prompts_json name w = (Return found, w) /\
                truthy (template_of found) = usable_template catalog name.
Proof.
  intros Hw. rewrite (PromptLoader_get_cached prompts_json w catalog name Hw).
  eexists. split; [ reflexivity |].
  unfold usable_template, Get. destruct (catalog !! name) as [d |]; [ reflexivity |].
  destruct (bool_decide _); reflexivity.
Qed.

Lemma PromptLoader_get_failure (key : jsstring) (w : World) (e : exception) :
  PromptLoader_prompts w = None ->
  prompts_json (file_reads w) = Throw e ->
  exists w1, PromptLoader_get prompts_json key w = (Throw e, w1) /\
             requests w1 = requests w.
Proof.
  intros Hn He. unfold PromptLoader_get, bind, PromptLoader_load.
  rewrite Hn, He. eexists. split; reflexivity.
Qed.

(** What a templated operation does after its look-up. *)
Lemma templated_at_most_one_request {A : Type} (self : KaruAssistant)
    (name : jsstring) (e : exception) (build : jsstring -> jsstring)
    (post : jsstring -> completion A) (w : World) :
  at_most_one_request remote self post w
    (bind (PromptLoader_get prompts_json name)
       (fun found =>
          match truthy (template_of found) with
          | None => throw e
          | Some promptTemplate =>
              bind (generateContent remote self (build promptTemplate))
                   (fun response w' => (post response, w'))
          end) w).
Proof.
  unfold bind at 1. unfold at_most_one_request.
  pose proof (PromptLoader_get_requests name w) as Hr.
  destruct (PromptLoader_get prompts_json name w) as [[found | e'] w1]; cbn [snd] in Hr.
  - destruct (truthy (template_of found)) as [t |].
    + right. exists (build t). rewrite <- Hr. unfold bind, generateContent.
      destruct (remote (model self) (requests w1) (build t)); split; reflexivity.
    + left. split; [ exact Hr | eexists; reflexivity ].
  - left. split; [ exact Hr | eexists; reflexivity ].
Qed.

Lemma bind_Return (m : M jsstring) (w : World) :
  bind m (fun response w' => (Return response, w')) w = m w.
Proof. unfold bind. destruct (m w) as [[r | e] w1]; reflexivity. Qed.

(** X9: no operation makes more than one request, and none changes what
    the remote model gives: [ask], [summarize] and [getKeyPoints] end
    with the model's text as it is or with the model's failure as it is,
    [translate] with the parsed text or that failure; an operation that
    makes no request fails. *)
Theorem operations_at_most_one_request (self : KaruAssistant) (w : World)
    (text target : jsstring) (fromLanguage : option jsstring)
    (language : option Languages) (options : SummaryOptions) (maxPoints : option number) :
  at_most_one_request remote self Return w (ask remote self text w) /\
  at_most_one_request remote self Return w
    (summarize prompts_json remote self text language options w) /\
  at_most_one_request remote self Return w
    (getKeyPoints prompts_json remote self text language maxPoints w) /\
  at_most_one_request remote self translate_parse w
    (translate prompts_json remote self text target fromLanguage w).
Proof.
  split; [| split; [| split ] ].
  - right. exists text. unfold ask, generateContent. cbn [fst snd].
    destruct (remote (model self) (requests w) text); split; reflexivity.
  - pose proof (templated_at_most_one_request self (js "summarize")
                  (Error (js "Summarize prompt template not found"))
                  (fun t => summarize_prompt t text (default EN language)
                              (default MEDIUM (length_option options))
                              (default PROFESSIONAL (style_option options)))
                  Return w) as H.
    unfold summarize.
    replace (bind (PromptLoader_get prompts_json (js "summarize")) _ w)
      with (bind (PromptLoader_get prompts_json (js "summarize"))
              (fun found =>
                 match truthy (template_of found) with
                 | None => throw (Error (js "Summarize prompt template not found"))
                 | Some promptTemplate =>
                     bind (generateContent remote self
                             (summarize_prompt promptTemplate text (default EN language)
                                (default MEDIUM (length_option options))
                                (default PROFESSIONAL (style_option options))))
                          (fun response w' => (Return response, w'))
                 end) w); [ exact H |].
    unfold bind at 1 3.
    destruct (PromptLoader_get prompts_json (js "summarize") w) as [[found | e] w1];
      [| reflexivity ].
    destruct (truthy (template_of found)); [ apply bind_Return | reflexivity ].
  - pose proof (templated_at_most_one_request self (js "keypoints")
                  (Error (js "Key points prompt template not found"))
                  (fun t => getKeyPoints_prompt t text (default EN language)
                              (default five maxPoints))
                  Return w) as H.
    unfold getKeyPoints.
    replace (bind (PromptLoader_get prompts_json (js "keypoints")) _ w)
      with (bind (PromptLoader_get prompts_json (js "keypoints"))
              (fun found =>
                 match truthy (template_of found) with
                 | None => throw (Error (js "Key points prompt template not found"))
                 | Some promptTemplate =>
                     bind (generateContent remote self
                             (getKeyPoints_prompt promptTemplate text (default EN language)
                                (default five maxPoints)))
                          (fun response w' => (Return response, w'))
                 end) w); [ exact H |].
    unfold bind at 1 3.
    destruct (PromptLoader_get prompts_json (js "keypoints") w) as [[found | e] w1];
      [| reflexivity ].
    destruct (truthy (template_of found)); [ apply bind_Return | reflexivity ].
  - exact (templated_at_most_one_request self (js "translate")
             (Error (js "Translate prompt template not found"))
             (fun t => translate_prompt t (inputText_of text) target fromLanguage)
             translate_parse w).
Qed.

(** X10: a templated operation needs a template that is not empty.  With
    the catalog loaded, when the catalog holds nothing under the name of
    the operation, or an entry whose template is the empty string, the
    operation raises its own configuration error and changes nothing:
    no request is made. *)
Theorem operations_need_template (self : KaruAssistant) (w : World)
    (catalog : gmap jsstring PromptData)
    (text target : jsstring) (fromLanguage : option jsstring)
    (language : option Languages) (options : SummaryOptions) (maxPoints : option number) :
  PromptLoader_prompts w = Some catalog ->
  (usable_template catalog (js "summarize") = None ->
   summarize prompts_json remote self text language options w
   = (Throw (Error (js "Summarize prompt template not found")), w)) /\
  (usable_template catalog (js "keypoints") = None ->
   getKeyPoints prompts_json remote self text language maxPoints w
   = (Throw (Error (js "Key points prompt template not found")), w)) /\
  (usable_template catalog (js "translate") = None ->
   translate prompts_json remote self text target fromLanguage w
   = (Throw (Error (js "Translate prompt template not found")), w)).
Proof.
  intros Hw. split; [| split ]; intros Hn.
  - destruct (PromptLoader_get_template w catalog (js "summarize") Hw) as (found & Hg & Ht).
    unfold summarize, bind. rewrite Hg, Ht, Hn. reflexivity.
  - destruct (PromptLoader_get_template w catalog (js "keypoints") Hw) as (found & Hg & Ht).
    unfold getKeyPoints, bind. rewrite Hg, Ht, Hn. reflexivity.
  - destruct (PromptLoader_get_template w catalog (js "translate") Hw) as (found & Hg & Ht).
    unfold translate, bind. rewrite Hg, Ht, Hn. reflexivity.
Qed.

(** X11: when the catalog is not loaded and its file cannot be read (or
    parsed), [summarize], [getKeyPoints] and [translate] fail with that
    failure, and no request is made. *)
Theorem operations_file_failure (self : KaruAssistant) (w : World) (e : exception)
    (text target : jsstring) (fromLanguage : option jsstring)
    (language : option Languages) (options : SummaryOptions) (maxPoints : option number) :
  PromptLoader_prompts w = None ->
  prompts_json (file_reads w) = Throw e ->
  (fst (summarize prompts_json remote self text language options w) = Throw e /\
   requests (snd (summarize prompts_json remote self text language options w))
   = requests w) /\
  (fst (getKeyPoints prompts_json remote self text language maxPoints w) = Throw e /\
   requests (snd (getKeyPoints prompts_json remote self text language maxPoints w))
   = requests w) /\
  (fst (translate prompts_json remote self text target fromLanguage w) = Throw e /\
   requests (snd (translate prompts_json remote self text target fromLanguage w))
   = requests w).
Proof.
  intros Hn He. split; [| split ].
  - destruct (PromptLoader_get_failure (js "summarize") w e Hn He) as (w1 & Hg & Hr).
    unfold summarize, bind. rewrite Hg. split; [ reflexivity | exact Hr ].
  - destruct (PromptLoader_get_failure (js "keypoints") w e Hn He) as (w1 & Hg & Hr).
    unfold getKeyPoints, bind. rewrite Hg. split; [ reflexivity | exact Hr ].
  - destruct (PromptLoader_get_failure (js "translate") w e Hn He) as (w1 & Hg & Hr).
    unfold translate, bind. rewrite Hg. split; [ reflexivity | exact Hr ].
Qed.
End OperationFacts.

Lemma operations_need_template_witness :
  getKeyPoints example_disk (answers (js "x")) example_assistant (js "some text")
    None None (world_of empty_keypoints)
  = (Throw (Error (js "Key points prompt template not found")),
     world_of empty_keypoints).
Proof.
  apply (proj1 (proj2 (operations_need_template example_disk (answers (js "x"))
                         example_assistant (world_of empty_keypoints) empty_keypoints
                         (js "some text") [] None None
                         {| length_option := None; style_option := None |} None
                         eq_refl))).
  vm_compute. reflexivity.
Defined.

Lemma operations_file_failure_witness :
  fst (translate (fun _ => Throw FileError) (answers (js "x")) example_assistant
         (js "hello") (js "fr") None (world_with None None))
  = Throw FileError.
Proof.
  exact (proj1 (proj2 (proj2 (operations_file_failure (fun _ => Throw FileError)
           (answers (js "x")) example_assistant (world_with None None) FileError
           (js "hello") (js "fr") None None
           {| length_option := None; style_option := None |} None
           eq_refl eq_refl)))).
Defined.

(** ** getKeyPoints *)

Lemma string_of_uint_dollar_free (d : Decimal.uint) :
  dollar_free (js (DecimalString.NilEmpty.string_of_uint d)) = true.
Proof. induction d; simpl; try reflexivity; exact IHd. Qed.

Lemma string_of_uint_zero_dollar_free (d : Decimal.uint) :
  dollar_free (js (DecimalString.NilZero.string_of_uint d)) = true.
Proof.
  unfold DecimalString.NilZero.string_of_uint.
  destruct d; first
    [ reflexivity
    | match goal with
      | |- dollar_free (js (DecimalString.NilEmpty.string_of_uint ?x)) = true =>
          exact (string_of_uint_dollar_free x)
      end ].
Qed.

Lemma dollar_free_app (a b : jsstring) :
  dollar_free (a ++ b) = dollar_free a && dollar_free b.
Proof. apply forallb_app. Qed.

Lemma dollar_free_take (n : nat) (a : jsstring) :
  dollar_free a = true -> dollar_free (take n a) = true.
Proof.
  unfold dollar_free. revert n. induction a as [| c a IH]; intros [| n] H;
    try reflexivity.
  cbn [take forallb] in *. apply andb_prop in H as [-> H]. exact (IH n H).
Qed.

Lemma dollar_free_drop (n : nat) (a : jsstring) :
  dollar_free a = true -> dollar_free (drop n a) = true.
Proof.
  unfold dollar_free. revert n. induction a as [| c a IH]; intros [| n] H;
    try reflexivity; try exact H.
  cbn [drop forallb] in *. apply andb_prop in H as [_ H]. exact (IH n H).
Qed.

Lemma dollar_free_zeros (n : nat) : dollar_free (repeat 48 n) = true.
Proof. induction n as [| n IH]; [ reflexivity | exact IH ]. Qed.

Lemma Number_toString_positive_dollar_free (s : positive) (n : Z) :
  dollar_free (Number_toString_positive s n) = true.
Proof.
  pose proof (string_of_uint_dollar_free (Pos.to_uint s)) as Hd.
  fold (digits_of s) in Hd.
  pose proof (string_of_uint_zero_dollar_free (N.to_uint (Z.to_N (Z.abs (n - 1))))) as He.
  fold (decimal_of (n - 1)) in He.
  unfold Number_toString_positive.
  repeat match goal with
         | |- context [if ?b then _ else _] => destruct b
         end;
    rewrite ?dollar_free_app, ?Hd, ?He, ?dollar_free_zeros,
      ?(dollar_free_take _ _ Hd), ?(dollar_free_drop _ _ Hd);
    reflexivity.
Qed.

(** What [toString] gives for a Number holds no dollar sign. *)
Lemma Number_toString_dollar_free (x : number) : dollar_free (Number_toString x) = true.
Proof.
  destruct x as [| [|] | | [|] s n]; try reflexivity; cbn [Number_toString];
    rewrite ?dollar_free_app, Number_toString_positive_dollar_free; reflexivity.
Qed.

(** The counts of every day are written in decimal; from ten to the 21
    on, and for small fractions, the exponent form is used. *)
Example Number_toString_examples :
  Number_toString five = js "5" /\
  Number_toString (Finite false 12 4) = js "1200" /\
  Number_toString (Finite false 25 0) = js "0.25" /\
  Number_toString (Finite true 75 1) = js "-7.5" /\
  Number_toString (Finite false 1 22) = js "1e+21" /\
  Number_toString (Finite false 1 (-6)) = js "1e-7" /\
  Number_toString NaN = js "NaN" /\
  Number_toString (Infinity true) = js "-Infinity".
Proof. repeat split; vm_compute; reflexivity. Qed.

(** X12: with a "keypoints" template that is not empty and a text
    without dollar signs, [getKeyPoints] makes one request, whose prompt
    is the template with, one after the other and each at its first
    occurrence only, {count} replaced by what [toString] gives for the
    count (5 when not given), {language} by the language code (en when
    not given) and {text} by the text; its result is what the remote
    model gives. *)
Theorem getKeyPoints_prompt_built
    (prompts_json : nat -> completion (gmap jsstring PromptData))
    (remote : GenerativeModel -> list jsstring -> jsstring -> completion jsstring)
    (self : KaruAssistant) (text : jsstring) (language : option Languages)
    (maxPoints : option number) (w : World) (catalog : gmap jsstring PromptData)
    (promptTemplate : jsstring) :
  PromptLoader_prompts w = Some catalog ->
  usable_template catalog (js "keypoints") = Some promptTemplate ->
  dollar_free text = true ->
  getKeyPoints prompts_json remote self text language maxPoints w
  = (remote (model self) (requests w)
       (getKeyPoints_prompt_as_specified promptTemplate text
          (default EN language) (default five maxPoints)),
     sent (getKeyPoints_prompt_as_specified promptTemplate text
             (default EN language) (default five maxPoints)) w).
Proof.
  intros Hw Ht Hx.
  destruct (PromptLoader_get_template prompts_json w catalog (js "keypoints") Hw)
    as (found & Hg & Hf).
  unfold getKeyPoints, bind. rewrite Hg, Hf, Ht.
  unfold getKeyPoints_prompt, getKeyPoints_prompt_as_specified.
  rewrite (String_replace_dollar_free _ _ _ Hx).
  rewrite (String_replace_dollar_free _ (Languages_value _) _)
    by (destruct (default EN language); reflexivity).
  rewrite (String_replace_dollar_free _ _ _ (Number_toString_dollar_free _)).
  reflexivity.
Qed.

Lemma getKeyPoints_prompt_built_witness :
  requests (snd (getKeyPoints example_disk (answers (js "ok")) example_assistant
                   (js "Some text.") (Some DE) (Some (Finite false 12 2)) loaded_world))
  = [js "List 12 key points in de: Some text."].
Proof.
  rewrite (getKeyPoints_prompt_built example_disk (answers (js "ok")) example_assistant
             (js "Some text.") (Some DE) (Some (Finite false 12 2)) loaded_world example_prompts
             (js "List {count} key points in {language}: {text}")
             eq_refl ltac:(vm_compute; reflexivity) eq_refl).
  vm_compute. reflexivity.
Defined.

(** ** summarize: what the prompt carries *)

Lemma includes_replaced (pat value t : jsstring) :
  includes pat t = true -> dollar_free value = true ->
  includes value (String_replace pat value t) = true.
Proof.
  intros Hp Hv. unfold String_replace. unfold includes in Hp.
  destruct (indexOf pat t) as [i |]; [| discriminate Hp ].
  rewrite (GetSubstitution_dollar_free _ _ _ _ Hv). apply includes_intro.
Qed.

(** With the code en, which is part of {length}, a template can be made
    in which the replacement of {length} takes the code away again. *)
Example summarize_prompt_en_rescanned :
  includes (js "en") (summarize_prompt (js "{l{language}gth}") [] EN LONG SIMPLE) = false.
Proof. vm_compute. reflexivity. Qed.

(** X13: the prompt of [summarize] carries each option whose placeholder
    the template has: the language code for {language} (for a language
    other than en), the phrase of the length for {length}, the style for
    {style}, and, when it holds no dollar sign, the text for {text}. *)
Theorem summarize_prompt_carries (promptTemplate text : jsstring)
    (language : Languages) (length : SummaryLength) (style : SummaryStyle) :
  (includes (js "{language}") promptTemplate = true ->
   language <> EN ->
   includes (Languages_value language)
     (summarize_prompt promptTemplate text language length style) = true) /\
  (includes (js "{length}") promptTemplate = true ->
   includes (lengthMap length)
     (summarize_prompt promptTemplate text language length style) = true) /\
  (includes (js "{style}") promptTemplate = true ->
   includes (SummaryStyle_value style)
     (summarize_prompt promptTemplate text language length style) = true) /\
  (includes (js "{text}") promptTemplate = true ->
   dollar_free text = true ->
   includes text (summarize_prompt promptTemplate text language length style) = true).
Proof.
  unfold summarize_prompt. split; [| split; [| split ] ].
  - intros H Hen.
    apply (includes_String_replace (js "{text}"));
      [ destruct language; vm_compute; reflexivity |].
    apply (includes_String_replace (js "{style}"));
      [ destruct language; vm_compute; reflexivity |].
    apply (includes_String_replace (js "{length}"));
      [ destruct language; try congruence; vm_compute; reflexivity |].
    apply includes_replaced; [ exact H | destruct language; reflexivity ].
  - intros H.
    apply (includes_String_replace (js "{text}"));
      [ destruct length; vm_compute; reflexivity |].
    apply (includes_String_replace (js "{style}"));
      [ destruct length; vm_compute; reflexivity |].
    apply includes_replaced; [| destruct length; reflexivity ].
    apply includes_String_replace; [ vm_compute; reflexivity | exact H ].
  - intros H.
    apply (includes_String_replace (js "{text}"));
      [ destruct style; vm_compute; reflexivity |].
    apply includes_replaced; [| destruct style; reflexivity ].
    apply includes_String_replace; [ vm_compute; reflexivity |].
    apply includes_String_replace; [ vm_compute; reflexivity | exact H ].
  - intros H Hx.
    apply includes_replaced; [| exact Hx ].
    apply includes_String_replace; [ vm_compute; reflexivity |].
    apply includes_String_replace; [ vm_compute; reflexivity |].
    apply includes_String_replace; [ vm_compute; reflexivity | exact H ].
Qed.

Lemma summarize_prompt_carries_witness :
  includes (js "3-4 paragraphs")
    (summarize_prompt (js "Summarize in {language}, {length}, {style} style: {text}")
       (js "Prices in $$.") JA LONG ACADEMIC) = true.
Proof.
  apply (proj1 (proj2 (summarize_prompt_carries
           (js "Summarize in {language}, {length}, {style} style: {text}")
           (js "Prices in $$.") JA LONG ACADEMIC))).
  vm_compute. reflexivity.
Defined.

(** ** translate: the cleaning of the input *)

Lemma remove_emoji_markup_none (s : jsstring) :
  forallb (fun c => negb (c =? 60)) s = true -> remove_emoji_markup s 0 = s.
Proof.
  induction s as [| c s IH]; [ reflexivity |].
  intros H. cbn [forallb] in H. apply andb_prop in H as [Hc H].
  apply negb_true_iff in Hc.
  cbn [remove_emoji_markup emoji_markup_length]. rewrite Hc, (IH H). reflexivity.
Qed.

(** X14: a text that holds no [<] is only trimmed by [translate]: the
    removal of emoji markup leaves it as it is. *)
Theorem inputText_of_plain (text : jsstring) :
  forallb (fun c => negb (c =? 60)) text = true ->
  inputText_of text = trim text.
Proof.
  intros H. rewrite inputText_of_spec, (remove_emoji_markup_none text H). reflexivity.
Qed.

Lemma inputText_of_plain_witness :
  inputText_of (js "  a:b:123456789012345678> c  ") = js "a:b:123456789012345678> c".
Proof.
  rewrite (inputText_of_plain (js "  a:b:123456789012345678> c  ") eq_refl).
  vm_compute. reflexivity.
Defined.

(** ** translate: the fields read from the response *)

Lemma occurs_in_refl (s : jsstring) : occurs_in s s.
Proof. exists [], []. rewrite app_nil_r. reflexivity. Qed.

Lemma occurs_in_trans (x y z : jsstring) : occurs_in x y -> occurs_in y z -> occurs_in x z.
Proof.
  intros (a & b & ->) (c & d & ->). exists (c ++ a), (b ++ d).
  rewrite <- !app_assoc. reflexivity.
Qed.

Lemma occurs_in_suffix (a s : jsstring) : occurs_in s (a ++ s).
Proof. exists a, []. rewrite app_nil_r. reflexivity. Qed.

Lemma occurs_in_prefix (s b : jsstring) : occurs_in s (s ++ b).
Proof. exists [], b. reflexivity. Qed.

Lemma trimStart_suffix (s : jsstring) : exists a, s = a ++ trimStart s.
Proof.
  induction s as [| c s [a IH]]; [ exists []; reflexivity |].
  simpl. destruct (isSpace c).
  - exists (c :: a). simpl. rewrite <- IH. reflexivity.
  - exists []. reflexivity.
Qed.

Lemma trimEnd_prefix (s : jsstring) : exists b, s = trimEnd s ++ b.
Proof.
  unfold trimEnd. destruct (trimStart_suffix (rev s)) as [a Ha].
  exists (rev a). rewrite <- rev_app_distr, <- Ha, rev_involutive. reflexivity.
Qed.

Lemma trim_occurs_in (s : jsstring) : occurs_in (trim s) s.
Proof.
  unfold trim. destruct (trimStart_suffix s) as [a Ha].
  destruct (trimEnd_prefix (trimStart s)) as [b Hb].
  exists a, b. rewrite <- Hb. exact Ha.
Qed.

Lemma trimStart_head (s : jsstring) :
  trimStart s <> [] -> isSpace (hd 32 (trimStart s)) = false.
Proof.
  induction s as [| c s IH]; simpl; [ congruence |].
  destruct (isSpace c) eqn:E; [ exact IH |]. intros _. exact E.
Qed.

Lemma hd_rev (s : jsstring) (d : N) : hd d (rev s) = List.last s d.
Proof.
  destruct s as [| c s]; [ reflexivity |].
  rewrite (app_removelast_last d (l := c :: s)) at 1 by discriminate.
  rewrite rev_app_distr. reflexivity.
Qed.

Lemma trimEnd_last (s : jsstring) :
  trimEnd s <> [] -> isSpace (List.last (trimEnd s) 32) = false.
Proof.
  unfold trimEnd. intros H. rewrite <- hd_rev, rev_involutive.
  apply trimStart_head. intros E. rewrite E in H. apply H. reflexivity.
Qed.

(** What [trim] gives is empty or has no white space at either end. *)
Lemma trim_ends (s : jsstring) :
  trim s <> [] ->
  isSpace (hd 32 (trim s)) = false /\ isSpace (List.last (trim s) 32) = false.
Proof.
  unfold trim. intros H. split; [| apply trimEnd_last, H ].
  destruct (trimEnd_prefix (trimStart s)) as [b Hb].
  assert (Hs : trimStart s <> []).
  { intros E. rewrite E in H. apply H. reflexivity. }
  pose proof (trimStart_head s Hs) as Hh. rewrite Hb in Hh.
  destruct (trimEnd (trimStart s)); [ congruence | exact Hh ].
Qed.

Lemma forallb_occurs_in (p : N -> bool) (x s : jsstring) :
  occurs_in x s -> forallb p s = true -> forallb p x = true.
Proof.
  intros (a & b & ->). rewrite !forallb_app. intros H.
  apply andb_prop in H as [_ H]. apply andb_prop in H as [H _]. exact H.
Qed.

Lemma take_while_holds (p : N -> bool) (s : jsstring) :
  forallb p (take_while p s) = true.
Proof.
  induction s as [| c s IH]; simpl; [ reflexivity |].
  destruct (p c) eqn:E; simpl; [ rewrite E, IH |]; reflexivity.
Qed.

Lemma skip_while_suffix (p : N -> bool) (s : jsstring) : occurs_in (skip_while p s) s.
Proof. rewrite <- (take_skip_while p s) at 2. apply occurs_in_suffix. Qed.

Lemma after_label_suffix (label s rest : jsstring) :
  after_label label s = Some rest -> occurs_in rest s.
Proof.
  assert (H : forall t, after_label label t =
            if starts_with_pattern true label t then Some (drop (length label) t)
            else match t with [] => None | _ :: t' => after_label label t' end)
    by (intros [| c t]; reflexivity).
  induction s as [| c s IH]; rewrite H.
  - destruct (starts_with_pattern true label []); [| discriminate ].
    intros E. injection E as <-. rewrite drop_nil. apply occurs_in_refl.
  - destruct (starts_with_pattern true label (c :: s)).
    + intros E. injection E as <-.
      rewrite <- (take_drop (length label) (c :: s)) at 2. apply occurs_in_suffix.
    + intros E. apply (occurs_in_trans _ s); [ exact (IH E) |].
      apply (occurs_in_suffix [c]).
Qed.

(** A value read after a label: a line of the response, in one piece. *)
Lemma labelled_value_plain (label s v : jsstring) :
  labelled_value label s = Some v -> plain_line v /\ occurs_in v s.
Proof.
  unfold labelled_value. destruct (after_label label s) as [rest |] eqn:E;
    [| discriminate ].
  set (line := take_while within_line (skip_while isSpace rest)).
  unfold truthy. destruct (is_empty (trim line)) eqn:Ee; [ discriminate |].
  intros Hv. injection Hv as <-.
  assert (Hne : trim line <> []) by (intros E0; rewrite E0 in Ee; discriminate Ee).
  destruct (trim_ends line Hne) as [Hh Hl].
  split; [ split; [ exact Hh | split; [ exact Hl |] ] |].
  - apply (forallb_occurs_in _ _ line (trim_occurs_in line)), take_while_holds.
  - apply (occurs_in_trans _ line); [ apply trim_occurs_in |].
    apply (occurs_in_trans _ (skip_while isSpace rest)).
    + unfold line.
      rewrite <- (take_skip_while within_line (skip_while isSpace rest)) at 2.
      apply occurs_in_prefix.
    + apply (occurs_in_trans _ rest); [ apply skip_while_suffix |].
      exact (after_label_suffix label s rest E).
Qed.

(** X15: whatever the response, the fields [translate] returns are
    lines taken from it: each is not empty, has no white space at either
    end and no line break inside, and stands in the response in one
    piece. *)
Theorem translate_parse_fields (response : jsstring) (result : TranslateResult) :
  translate_parse response = Return result ->
  plain_line (cleaned result) /\ occurs_in (cleaned result) response /\
  plain_line (translated result) /\ occurs_in (translated result) response.
Proof.
  rewrite translate_parse_spec. unfold fields_of.
  destruct (labelled_value (js "Cleaned:") (trim response)) as [c |] eqn:Ec;
    [| discriminate ].
  destruct (labelled_value (js "Translated:") (trim response)) as [t |] eqn:Et;
    [| discriminate ].
  intros H. injection H as <-. cbn [cleaned translated].
  destruct (labelled_value_plain _ _ _ Ec) as [Hc1 Hc2].
  destruct (labelled_value_plain _ _ _ Et) as [Ht1 Ht2].
  pose proof (trim_occurs_in response) as Hr.
  repeat split; try apply Hc1; try apply Ht1;
    eapply occurs_in_trans; eassumption.
Qed.

Lemma translate_parse_fields_witness :
  plain_line (js "hi") /\ occurs_in (js "hi") (js " Cleaned:  hi " ++ LF ++ js "translated: yo").
Proof.
  pose proof (translate_parse_fields (js " Cleaned:  hi " ++ LF ++ js "translated: yo")
                {| cleaned := js "hi"; translated := js "yo" |}
                ltac:(vm_compute; reflexivity)) as H.
  split; [ exact (proj1 H) | exact (proj1 (proj2 H)) ].
Defined.

(** *** A response of two labelled lines *)

Lemma upper_unit_colon (c : N) : upper_unit c = 58 -> c = 58.
Proof.
  unfold upper_unit. destruct (isLower c) eqn:E; [| trivial ].
  unfold isLower in E. apply andb_prop in E as [E1 E2].
  apply N.leb_le in E1, E2. lia.
Qed.

(** Where a label that ends in a colon starts, a colon stands at the
    distance of its body. *)
Lemma starts_with_pattern_colon (body u : jsstring) :
  starts_with_pattern true (body ++ [58]) u = true -> nth (length body) u 0 = 58.
Proof.
  revert u. induction body as [| p body IH]; intros [| c u]; cbn [app starts_with_pattern];
    try discriminate.
  - intros H. apply andb_prop in H as [H _]. apply N.eqb_eq in H.
    cbn [length nth]. apply upper_unit_colon. exact H.
  - intros H. apply andb_prop in H as [_ H]. cbn [length nth]. exact (IH u H).
Qed.

Lemma after_label_unfold (label t : jsstring) :
  after_label label t =
    if starts_with_pattern true label t then Some (drop (length label) t)
    else match t with [] => None | _ :: t' => after_label label t' end.
Proof. destruct t; reflexivity. Qed.

(** The label is not found where no colon stands at the distance of its
    body. *)
Lemma after_label_past (body : jsstring) (n : nat) (u : jsstring) :
  (forall p, (p < n)%nat -> nth (p + length body) u 0 <> 58) ->
  after_label (body ++ [58]) u = after_label (body ++ [58]) (drop n u).
Proof.
  revert u. induction n as [| n IH]; intros u H; [ reflexivity |].
  destruct u as [| c u]; [ reflexivity |].
  rewrite after_label_unfold.
  destruct (starts_with_pattern true (body ++ [58]) (c :: u)) eqn:E.
  - apply starts_with_pattern_colon in E. destruct (H 0%nat ltac:(lia) E).
  - cbn [drop]. apply IH. intros p Hp. exact (H (S p) ltac:(lia)).
Qed.

(** A label written in any letter case is found where it stands. *)
Lemma starts_with_pattern_any_case (label l s : jsstring) :
  toUpperCase l = toUpperCase label ->
  starts_with_pattern true label (l ++ s) = true.
Proof.
  revert l. induction label as [| p label IH]; intros [| c l]; cbn; try discriminate;
    [ reflexivity |].
  intros H. injection H as Hc Hl. unfold Canonicalize. rewrite Hc, N.eqb_refl.
  exact (IH l Hl).
Qed.

Lemma after_label_any_case (label l s : jsstring) :
  toUpperCase l = toUpperCase label ->
  after_label label (l ++ s) = Some s.
Proof.
  intros H. rewrite after_label_unfold, (starts_with_pattern_any_case label l s H).
  assert (Hlen : length label = length l).
  { apply (f_equal (@length N)) in H. unfold toUpperCase in H.
    rewrite !length_map in H. symmetry. exact H. }
  rewrite Hlen, drop_app_length. reflexivity.
Qed.

Lemma colon_free_nth (l : jsstring) (i : nat) : colon_free l = true -> nth i l 0 <> 58.
Proof.
  unfold colon_free. revert i. induction l as [| c l IH]; intros i H.
  - destruct i; discriminate.
  - cbn [forallb] in H. apply andb_prop in H as [Hc H].
    apply negb_true_iff, N.eqb_neq in Hc.
    destruct i as [| i]; [ exact Hc | exact (IH i H) ].
Qed.

Lemma space_colon_free (s : jsstring) : forallb isSpace s = true -> colon_free s = true.
Proof.
  unfold colon_free. induction s as [| c s IH]; [ reflexivity |].
  cbn [forallb]. intros H. apply andb_prop in H as [Hc H].
  rewrite (IH H), andb_true_r. apply negb_true_iff, N.eqb_neq.
  intros ->. discriminate Hc.
Qed.

Lemma toUpperCase_nth (l : jsstring) (i : nat) :
  nth i (toUpperCase l) 0 = upper_unit (nth i l 0).
Proof. exact (map_nth upper_unit l 0 i). Qed.

Lemma take_while_stop (p : N -> bool) (a : jsstring) (x : N) (r : jsstring) :
  forallb p a = true -> p x = false -> take_while p (a ++ x :: r) = a.
Proof.
  intros Ha Hx. induction a as [| c a IH]; cbn [app take_while].
  - rewrite Hx. reflexivity.
  - cbn [forallb] in Ha. apply andb_prop in Ha as [-> Ha]. rewrite (IH Ha). reflexivity.
Qed.

Lemma skip_while_stop (p : N -> bool) (gap s : jsstring) :
  forallb p gap = true -> p (hd 32 s) = false -> s <> [] ->
  skip_while p (gap ++ s) = s.
Proof.
  intros Hg Hs Hne. rewrite (skip_while_app p gap s Hg).
  destruct s as [| c s]; [ congruence |]. cbn [hd] in Hs. cbn [skip_while].
  rewrite Hs. reflexivity.
Qed.

Lemma trimStart_space (a s : jsstring) :
  forallb isSpace a = true -> trimStart (a ++ s) = trimStart s.
Proof.
  induction a as [| c a IH]; [ reflexivity |].
  cbn [forallb app trimStart]. intros H. apply andb_prop in H as [-> H]. exact (IH H).
Qed.

Lemma forallb_rev_space (b : jsstring) :
  forallb isSpace b = true -> forallb isSpace (rev b) = true.
Proof.
  intros H. apply forallb_forall. intros c Hc. apply in_rev in Hc.
  rewrite forallb_forall in H. exact (H c Hc).
Qed.

(** White space around a text is what [trim] takes away. *)
Lemma trim_padded (a s b : jsstring) :
  forallb isSpace a = true -> forallb isSpace b = true ->
  isSpace (hd 32 s) = false -> isSpace (List.last s 32) = false ->
  trim (a ++ s ++ b) = s.
Proof.
  intros Ha Hb Hh Hl. unfold trim.
  assert (Hne : s <> []) by (intros ->; discriminate Hh).
  rewrite (trimStart_space a _ Ha).
  rewrite (trimStart_keep (s ++ b)) by (destruct s; [ congruence | exact Hh ]).
  unfold trimEnd. rewrite rev_app_distr, (trimStart_space _ _ (forallb_rev_space b Hb)).
  exact (trimEnd_keep s Hl).
Qed.

Lemma plain_line_not_nil (v : jsstring) : plain_line v -> v <> [].
Proof. intros [H _] ->. discriminate H. Qed.

(** X16: a response of a "Cleaned:" line and a "Translated:" line is
    read back as its two values.  The labels may be in any letter case,
    white space may stand around the response and after each colon;
    each value is a line without white space at its ends, and the
    cleaned value holds no colon. *)
Theorem translate_parse_two_lines
    (l1 l2 gap1 gap2 c t before after : jsstring) :
  toUpperCase l1 = js "CLEANED:" ->
  toUpperCase l2 = js "TRANSLATED:" ->
  forallb isSpace before = true -> forallb isSpace gap1 = true ->
  forallb isSpace gap2 = true -> forallb isSpace after = true ->
  plain_line c -> colon_free c = true -> plain_line t ->
  translate_parse (before ++ (l1 ++ gap1 ++ c ++ LF ++ l2 ++ gap2 ++ t) ++ after)
  = Return {| cleaned := c; translated := t |}.
Proof.
  intros H1 H2 Hb Hg1 Hg2 Ha Hc Hcc Ht.
  pose proof (plain_line_not_nil c Hc) as Hcn.
  pose proof (plain_line_not_nil t Ht) as Htn.
  destruct Hc as (Hch & Hcl & Hcw). destruct Ht as (Hth & Htl & Htw).
  assert (Hlen1 : length l1 = 8%nat).
  { apply (f_equal (@length N)) in H1. unfold toUpperCase in H1.
    rewrite length_map in H1. exact H1. }
  assert (Hlen2 : length l2 = 11%nat).
  { apply (f_equal (@length N)) in H2. unfold toUpperCase in H2.
    rewrite length_map in H2. exact H2. }
  rewrite translate_parse_spec. unfold fields_of.
  rewrite trim_padded; try assumption.
  2:{ destruct l1 as [| a l1]; [ discriminate Hlen1 |]. cbn [app hd].
      injection H1 as Hu _. destruct (isSpace a) eqn:E; [| reflexivity ].
      unfold isSpace, isWhiteSpace, isLineTerminator in E.
      assert (Hlow : isLower a = false).
      { destruct (isLower a) eqn:El; [| reflexivity ].
        unfold isLower in El. apply andb_prop in El as [E1 E2].
        apply N.leb_le in E1, E2.
        assert (a = 99) by (unfold upper_unit in Hu; unfold isLower in Hu;
                            destruct ((97 <=? a) && (a <=? 122)); lia).
        subst a. discriminate E. }
      unfold upper_unit in Hu. rewrite Hlow in Hu. subst a. discriminate E. }
  2:{ rewrite !app_assoc. rewrite (last_app_ne _ _ _ Htn). exact Htl. }
  assert (Hcv : labelled_value (js "Cleaned:")
                  (l1 ++ gap1 ++ c ++ LF ++ l2 ++ gap2 ++ t) = Some c).
  { unfold labelled_value. rewrite (after_label_any_case (js "Cleaned:") l1 _ H1).
    rewrite (skip_while_stop isSpace gap1 (c ++ LF ++ l2 ++ gap2 ++ t) Hg1).
    - unfold LF. cbn [app]. rewrite (take_while_stop within_line c 10 _ Hcw eq_refl).
      rewrite (trim_keep c Hch Hcl). apply truthy_Some, Hcn.
    - destruct c; [ congruence | exact Hch ].
    - destruct c; [ congruence | discriminate ]. }
  assert (Htv : labelled_value (js "Translated:")
                  (l1 ++ gap1 ++ c ++ LF ++ l2 ++ gap2 ++ t) = Some t).
  { unfold labelled_value.
    assert (Hmid : colon_free (gap1 ++ c ++ LF) = true).
    { unfold colon_free in *. rewrite !forallb_app.
      fold (colon_free gap1). rewrite (space_colon_free gap1 Hg1), Hcc. reflexivity. }
    replace (l1 ++ gap1 ++ c ++ LF ++ l2 ++ gap2 ++ t)
      with ((l1 ++ gap1 ++ c ++ LF) ++ l2 ++ gap2 ++ t)
      by (rewrite <- !app_assoc; reflexivity).
    change (js "Translated:") with (js "Translated" ++ [58]).
    rewrite (after_label_past (js "Translated") (length (l1 ++ gap1 ++ c ++ LF))).
    - rewrite drop_app_length.
      change (js "Translated" ++ [58]) with (js "Translated:").
      rewrite (after_label_any_case (js "Translated:") l2 _ H2).
      rewrite (skip_while_stop isSpace gap2 t Hg2 Hth Htn).
      rewrite (take_while_whole _ _ Htw), (trim_keep t Hth Htl).
      apply truthy_Some, Htn.
    - intros p Hp.
      change (length (js "Translated")) with 10%nat.
      rewrite length_app, Hlen1 in Hp.
      rewrite <- app_assoc.
      rewrite app_nth2 by lia. rewrite Hlen1.
      replace (gap1 ++ c ++ LF ++ l2 ++ gap2 ++ t)
        with ((gap1 ++ c ++ LF) ++ l2 ++ gap2 ++ t)
        by (rewrite <- !app_assoc; reflexivity).
      destruct (Nat.lt_ge_cases (p + 10 - 8) (length (gap1 ++ c ++ LF))) as [Hin | Hout].
      + rewrite app_nth1 by exact Hin.
        apply colon_free_nth, Hmid.
      + rewrite app_nth2 by exact Hout.
        rewrite app_nth1 by lia.
        intros E. apply (f_equal upper_unit) in E.
        rewrite <- toUpperCase_nth, H2 in E.
        remember (p + 10 - 8 - length (gap1 ++ c ++ LF))%nat as j eqn:Hj.
        assert (Hj10 : (j < 10)%nat) by lia.
        do 10 (destruct j as [| j]; [ discriminate E |]). lia. }
  rewrite Hcv, Htv. reflexivity.
Qed.

Lemma translate_parse_two_lines_witness :
  translate_parse (js "  " ++ (js "CLEANED:" ++ js " " ++ js "hi there" ++ LF
                               ++ js "translated:" ++ LF ++ js "salut: toi") ++ LF)
  = Return {| cleaned := js "hi there"; translated := js "salut: toi" |}.
Proof.
  apply (translate_parse_two_lines (js "CLEANED:") (js "translated:") (js " ") LF
           (js "hi there") (js "salut: toi") (js "  ") LF);
    try reflexivity; repeat split; reflexivity.
Defined.

(** ** translate: the cleaned text and the prompt *)





